(** * carving_filters.h: a biquad section and its low-pass designer

    The header declares one struct, [BiquadFilter], with the members
    [Update] and [Reset], and one free function, [MakeLowPass].  All of its
    arithmetic is on C++ [float]; the only [double] is the literal [M_PI],
    which is cast to [float] before it is used.

    The embedding keeps the text of the header and abstracts the scalar
    type: the three functions are written once over an interface of
    arithmetic operations ([Arith]) and of the two libm functions the
    designer calls ([Libm]).  The interface is then read
    - at IEEE 754 binary32, which is what the compiled header runs on;
    - at IEEE 754 binary64, to compare with a double-precision evaluation;
    - at the real numbers, to compare with the design formulas.

    Floating-point numbers are those of the standard library's
    [SpecFloat]: a sign, a mantissa and an exponent, with the operations
    of Flocq's [Binary] module at a precision and a maximal exponent that
    are parameters (round to nearest, ties to even; a single NaN).  Every
    operator of the source is one operation rounded to [float]: the
    evaluation of a compiler that keeps [float] expressions in [float] and
    does not contract a product and a sum into a fused multiply-add.

    The test program of the repository, [tests/test_filters.cpp], is
    embedded twice: its three tests as the conjunctions of their checks,
    and the program itself, with its counter of failures and what it
    writes to the standard output and to the standard error. *)

From Stdlib Require Import ZArith QArith Reals Qreals Bool List Lia Lra.
From Stdlib Require Import Machin.
From Stdlib Require Import Floats.SpecFloat.
From Stdlib Require String Ascii DecimalString.
Import ListNotations.

Local Open Scope Z_scope.

(** ** IEEE 754 formats and operations *)

Module IEEE.

Record format := { prec : Z; emax : Z }.

Definition binary32 : format := {| prec := 24; emax := 128 |}.
Definition binary64 : format := {| prec := 53; emax := 1024 |}.

Definition fadd (fm : format) := SFadd (prec fm) (emax fm).
Definition fsub (fm : format) := SFsub (prec fm) (emax fm).
Definition fmul (fm : format) := SFmul (prec fm) (emax fm).
Definition fdiv (fm : format) := SFdiv (prec fm) (emax fm).
Definition fneg (x : spec_float) := SFopp x.
Definition valid (fm : format) := valid_binary (prec fm) (emax fm).

(** [std::isfinite]. *)
Definition isfinite (x : spec_float) : bool :=
  match x with
  | S754_zero _ | S754_finite _ _ _ => true
  | S754_infinity _ | S754_nan => false
  end.

(** The comparison operators of C++ on floating-point operands: every
    comparison with a NaN is false, and the two zeros are equal. *)
Definition feq := SFeqb.
Definition flt := SFltb.
Definition fle := SFleb.

(** [std::fabs]. *)
Definition fabs := SFabs.

(** The value of a finite number, as a fraction; 0 for the others. *)
Definition to_Q (x : spec_float) : Q :=
  match x with
  | S754_finite s m e =>
      let v := match e with
               | Z0 => Zpos m # 1
               | Zpos _ => (Zpos m * 2 ^ e) # 1
               | Zneg k => Zpos m # (2 ^ k)
               end in
      if s then Qopp v else v
  | _ => 0%Q
  end.

(** The same value, as a real number. *)
Definition to_R (x : spec_float) : R := Q2R (to_Q x).

(** The number of a format nearest to a fraction: the division of
    [SpecFloat] rounds the exact quotient of its two mantissas once,
    whatever their sizes. *)
Definition of_Q (fm : format) (q : Q) : spec_float :=
  match Qnum q with
  | Z0 => S754_zero false
  | Zpos n => fdiv fm (S754_finite false n 0) (S754_finite false (Qden q) 0)
  | Zneg n => fdiv fm (S754_finite true n 0) (S754_finite false (Qden q) 0)
  end.

(** A decimal literal [n/d] of the source, read at a format. *)
Definition literal (fm : format) (n d : positive) : spec_float :=
  of_Q fm (Zpos n # d).

(** Conversion between formats ([static_cast<float>] of a [double], and
    the implicit widening of a [float]): the same value, rounded to the
    target format. *)
Definition convert (fm : format) (x : spec_float) : spec_float :=
  match x with
  | S754_finite s m e => binary_round (prec fm) (emax fm) s m e
  | _ => x
  end.

(** The [k] numbers of a format just below and just above [x], and [x]. *)
Fixpoint around (fm : format) (k : nat) (x : spec_float) : list spec_float :=
  match k with
  | O => [x]
  | S k' =>
      Nat.iter k (SFpred (prec fm) (emax fm)) x
        :: Nat.iter k (SFsucc (prec fm) (emax fm)) x
        :: around fm k' x
  end.

End IEEE.

Import IEEE.

(** ** The constant and the libm functions of the header

    [M_PI] is the header's own [#define]: a [double] literal. *)

Definition M_PI : spec_float :=
  literal binary64 314159265358979323846 100000000000000000000.

(** [sinf] and [cosf] belong to the C library, not to the header: the
    designer is a function of them.  For evaluations on concrete inputs
    the development has a reference pair, the Maclaurin polynomials of
    degree 33 and 32 evaluated exactly on the fraction an argument denotes
    and rounded once; they are meant for arguments in [[-4, 4]], where the
    truncation error is below 1e-15. *)

Module Reference.

Fixpoint horner (n : nat) (k : Z) (x2 : Q) : Q :=
  match n with
  | O => 1%Q
  | S n' => Qred (1 - x2 * (1 # Z.to_pos (k * (k + 1))) * horner n' (k + 2) x2)%Q
  end.

Definition sin_Q (x : Q) : Q := Qred (x * horner 16 2 (Qred (x * x)))%Q.
Definition cos_Q (x : Q) : Q := horner 16 1 (Qred (x * x)).

Definition sin (fm : format) (x : spec_float) : spec_float :=
  match x with
  | S754_finite _ _ _ => of_Q fm (sin_Q (to_Q x))
  | S754_zero _ => x
  | _ => S754_nan
  end.

Definition cos (fm : format) (x : spec_float) : spec_float :=
  match x with
  | S754_finite _ _ _ => of_Q fm (cos_Q (to_Q x))
  | S754_zero _ => literal fm 1 1
  | _ => S754_nan
  end.

End Reference.

(** ** The scalar interface *)

Class Arith (F : Type) := {
  lit_0 : F;                 (* 0.0f *)
  lit_1 : F;                 (* 1.0f *)
  lit_2 : F;                 (* 2.0f *)
  lit_0_5 : F;               (* 0.5f *)
  pi : F;                    (* static_cast<float>(M_PI) *)
  add : F -> F -> F;
  sub : F -> F -> F;
  mul : F -> F -> F;
  div : F -> F -> F;
  neg : F -> F
}.

Class Libm (F : Type) := {
  sinf : F -> F;
  cosf : F -> F
}.

Declare Scope scalar_scope.
Delimit Scope scalar_scope with S.
Infix "+" := add : scalar_scope.
Infix "-" := sub : scalar_scope.
Infix "*" := mul : scalar_scope.
Infix "/" := div : scalar_scope.
Notation "- x" := (neg x) : scalar_scope.

(** ** The header *)

Section Header.

Context {F : Type} {AF : Arith F}.

Record BiquadFilter := {
  b0 : F;
  b1 : F;
  b2 : F;
  a1 : F;
  a2 : F;
  z1 : F;
  z2 : F
}.

(** The default member initialisers of the struct. *)
Definition default : BiquadFilter :=
  {| b0 := lit_1; b1 := lit_0; b2 := lit_0; a1 := lit_0; a2 := lit_0;
     z1 := lit_0; z2 := lit_0 |}.

(** Assignments to one member. *)
Definition set_b0 (f : BiquadFilter) (v : F) : BiquadFilter :=
  {| b0 := v; b1 := b1 f; b2 := b2 f; a1 := a1 f; a2 := a2 f; z1 := z1 f; z2 := z2 f |}.
Definition set_b1 (f : BiquadFilter) (v : F) : BiquadFilter :=
  {| b0 := b0 f; b1 := v; b2 := b2 f; a1 := a1 f; a2 := a2 f; z1 := z1 f; z2 := z2 f |}.
Definition set_b2 (f : BiquadFilter) (v : F) : BiquadFilter :=
  {| b0 := b0 f; b1 := b1 f; b2 := v; a1 := a1 f; a2 := a2 f; z1 := z1 f; z2 := z2 f |}.
Definition set_a1 (f : BiquadFilter) (v : F) : BiquadFilter :=
  {| b0 := b0 f; b1 := b1 f; b2 := b2 f; a1 := v; a2 := a2 f; z1 := z1 f; z2 := z2 f |}.
Definition set_a2 (f : BiquadFilter) (v : F) : BiquadFilter :=
  {| b0 := b0 f; b1 := b1 f; b2 := b2 f; a1 := a1 f; a2 := v; z1 := z1 f; z2 := z2 f |}.
Definition set_z1 (f : BiquadFilter) (v : F) : BiquadFilter :=
  {| b0 := b0 f; b1 := b1 f; b2 := b2 f; a1 := a1 f; a2 := a2 f; z1 := v; z2 := z2 f |}.
Definition set_z2 (f : BiquadFilter) (v : F) : BiquadFilter :=
  {| b0 := b0 f; b1 := b1 f; b2 := b2 f; a1 := a1 f; a2 := a2 f; z1 := z1 f; z2 := v |}.

(** [float Update(float sample)]: the object before the call goes in, the
    returned value and the object after the call come out.  The two
    assignments are in the order of the source: the second one sees the
    [z1] written by the first. *)
Definition Update (f : BiquadFilter) (sample : F) : F * BiquadFilter :=
  let result := (sample * b0 f + z1 f)%S in
  let f := set_z1 f (sample * b1 f + z2 f - a1 f * result)%S in
  let f := set_z2 f (sample * b2 f - a2 f * result)%S in
  (result, f).

(** [void Reset()]. *)
Definition Reset (f : BiquadFilter) : BiquadFilter :=
  let f := set_z1 f lit_0 in
  let f := set_z2 f lit_0 in
  f.

(** [BiquadFilter MakeLowPass(float cutoffHz, float sampleRateHz, float q)]. *)
Definition MakeLowPass {LF : Libm F} (cutoffHz sampleRateHz q : F) : BiquadFilter :=
  let omega := (lit_2 * pi * (cutoffHz / sampleRateHz))%S in
  let sinOmega := sinf omega in
  let cosOmega := cosf omega in
  let alpha := (sinOmega / (lit_2 * q))%S in
  let b0 := ((lit_1 - cosOmega) * lit_0_5)%S in
  let b1 := (lit_1 - cosOmega)%S in
  let b2 := ((lit_1 - cosOmega) * lit_0_5)%S in
  let a0 := (lit_1 + alpha)%S in
  let a1 := (- lit_2 * cosOmega)%S in
  let a2 := (lit_1 - alpha)%S in
  let filter := default in
  let filter := set_b0 filter (b0 / a0)%S in
  let filter := set_b1 filter (b1 / a0)%S in
  let filter := set_b2 filter (b2 / a0)%S in
  let filter := set_a1 filter (a1 / a0)%S in
  let filter := set_a2 filter (a2 / a0)%S in
  filter.

(** The loop of the tests, [for (i = 0; i < n; ++i) output = filter.Update(x);],
    from the value of [output] and the object before it. *)
Fixpoint drive (n : nat) (x : F) (output : F) (f : BiquadFilter) : F * BiquadFilter :=
  match n with
  | O => (output, f)
  | S n' => let '(output, f) := Update f x in drive n' x output f
  end.

End Header.

Arguments BiquadFilter F : clear implicits.

(** ** The three readings of the interface *)

(** A binary floating-point format: the operations round to the format,
    the literals are the numbers of the format nearest to the decimals
    written in the source (all four are exact), and [M_PI] is converted. *)
Definition float_arith (fm : format) : Arith spec_float :=
  {| lit_0 := S754_zero false;
     lit_1 := literal fm 1 1;
     lit_2 := literal fm 2 1;
     lit_0_5 := literal fm 1 2;
     pi := convert fm M_PI;
     add := fadd fm;
     sub := fsub fm;
     mul := fmul fm;
     div := fdiv fm;
     neg := fneg |}.

(** C++ [float], as the header is compiled. *)
Definition float := spec_float.
#[export] Instance float_Arith : Arith float := float_arith binary32.

(** The real numbers: exact arithmetic and the mathematical functions. *)
Definition real_Arith : Arith R :=
  {| lit_0 := 0%R; lit_1 := 1%R; lit_2 := 2%R; lit_0_5 := (/ 2)%R;
     pi := PI;
     add := Rplus; sub := Rminus; mul := Rmult; div := Rdiv; neg := Ropp |}.
Definition real_Libm : Libm R := {| sinf := sin; cosf := cos |}.

(** The reference libm at a format. *)
Definition reference_Libm (fm : format) : Libm spec_float :=
  {| sinf := Reference.sin fm; cosf := Reference.cos fm |}.

(** ** The tests of the repository *)

Definition lit_12 : float := literal binary32 12 1.
Definition lit_200 : float := literal binary32 200 1.
Definition lit_0_707 : float := literal binary32 707 1000.
Definition lit_0_9 : float := literal binary32 9 10.
Definition lit_1_1 : float := literal binary32 11 10.
Definition lit_1e_6 : float := literal binary32 1 1000000.

(** The checks of the tests, on the filter they are made on. *)
Definition coefficients_finite (filter : BiquadFilter float) : bool :=
  isfinite (b0 filter) && isfinite (b1 filter) && isfinite (b2 filter)
  && isfinite (a1 filter) && isfinite (a2 filter).

Definition step_output (filter : BiquadFilter float) : float :=
  fst (drive 200 lit_1 lit_0 filter).

Definition zero_output (filter : BiquadFilter float) : float :=
  fst (drive 50 lit_0 lit_0 filter).

Section Tests.

Context {LF : Libm float}.

(** [TestCoefficientsFinite]: the conjunction of its five checks. *)
Definition TestCoefficientsFinite : bool :=
  let filter := MakeLowPass lit_12 lit_200 lit_0_707 in
  coefficients_finite filter.

(** [TestStepResponse]: the conjunction of its two checks. *)
Definition TestStepResponse : bool :=
  let filter := MakeLowPass lit_12 lit_200 lit_0_707 in
  let output := step_output filter in
  flt lit_0_9 output && flt output lit_1_1.

(** [TestZeroInput]: fifty zeros into the filter as it is built. *)
Definition TestZeroInput : bool :=
  let filter := MakeLowPass lit_12 lit_200 lit_0_707 in
  let output := zero_output filter in
  flt (fabs output) lit_1e_6.

(** The scenario of the specification's zero-input property: the fifty
    zeros go into the filter that the two hundred ones of the step
    response have left. *)
Definition decay_output : float :=
  let filter := MakeLowPass lit_12 lit_200 lit_0_707 in
  let '(_, filter) := drive 200 lit_1 lit_0 filter in
  zero_output filter.

End Tests.

(** ** What the header computes in the terms of the design formulas *)

(** The low-pass design of the Audio EQ Cookbook, as the specification
    writes it, in exact arithmetic. *)
Definition cookbook_lowpass (cutoffHz sampleRateHz q : R) : BiquadFilter R :=
  let omega := (2 * PI * cutoffHz / sampleRateHz)%R in
  let alpha := (sin omega / (2 * q))%R in
  let b0_raw := ((1 - cos omega) / 2)%R in
  let b1_raw := (1 - cos omega)%R in
  let b2_raw := ((1 - cos omega) / 2)%R in
  let a0_raw := (1 + alpha)%R in
  let a1_raw := (-2 * cos omega)%R in
  let a2_raw := (1 - alpha)%R in
  {| b0 := (b0_raw / a0_raw)%R; b1 := (b1_raw / a0_raw)%R; b2 := (b2_raw / a0_raw)%R;
     a1 := (a1_raw / a0_raw)%R; a2 := (a2_raw / a0_raw)%R;
     z1 := 0%R; z2 := 0%R |}.

(** The binary32 numbers 1, 2, 1/2, -1 and 2^-100, written out. *)
Abbreviation f32_2p_100 := (S754_finite false 8388608 (-123)).
Abbreviation f32_1 := (S754_finite false 8388608 (-23)).
Abbreviation f32_2 := (S754_finite false 8388608 (-22)).
Abbreviation f32_0_5 := (S754_finite false 8388608 (-24)).
Abbreviation f32_m1 := (S754_finite true 8388608 (-23)).

(** The same design with every operation in binary32, in the order and
    the grouping of the source, and [M_PI] converted before its use. *)
Definition single_lowpass (sinf cosf : float -> float) (cutoffHz sampleRateHz q : float)
  : BiquadFilter float :=
  let omega :=
    SFmul 24 128 (SFmul 24 128 f32_2 (convert binary32 M_PI))
                 (SFdiv 24 128 cutoffHz sampleRateHz) in
  let sinOmega := sinf omega in
  let cosOmega := cosf omega in
  let alpha := SFdiv 24 128 sinOmega (SFmul 24 128 f32_2 q) in
  let a0 := SFadd 24 128 f32_1 alpha in
  {| b0 := SFdiv 24 128 (SFmul 24 128 (SFsub 24 128 f32_1 cosOmega) f32_0_5) a0;
     b1 := SFdiv 24 128 (SFsub 24 128 f32_1 cosOmega) a0;
     b2 := SFdiv 24 128 (SFmul 24 128 (SFsub 24 128 f32_1 cosOmega) f32_0_5) a0;
     a1 := SFdiv 24 128 (SFmul 24 128 (SFopp f32_2) cosOmega) a0;
     a2 := SFdiv 24 128 (SFsub 24 128 f32_1 alpha) a0;
     z1 := S754_zero false;
     z2 := S754_zero false |}.

(** The evaluation the specification describes: the arguments widened to
    binary64, the whole derivation in binary64 with the [double] functions
    of libm, and each member narrowed to binary32 when it is stored. *)
Definition narrow (f : BiquadFilter spec_float) : BiquadFilter float :=
  {| b0 := convert binary32 (b0 f); b1 := convert binary32 (b1 f);
     b2 := convert binary32 (b2 f); a1 := convert binary32 (a1 f);
     a2 := convert binary32 (a2 f); z1 := convert binary32 (z1 f);
     z2 := convert binary32 (z2 f) |}.

Definition double_lowpass (L64 : Libm spec_float) (cutoffHz sampleRateHz q : float)
  : BiquadFilter float :=
  narrow (MakeLowPass (AF := float_arith binary64) (LF := L64)
            (convert binary64 cutoffHz) (convert binary64 sampleRateHz)
            (convert binary64 q)).

(** ** Assumptions on libm at one argument

    A libm whose [sinf] and [cosf] return, at [x], well-formed finite
    numbers no further than [2^-23] from the sine and the cosine of [x]:
    two units in the last place for a result in [[1/2, 1)], four for a
    result in [[1/4, 1/2)]. *)
Definition libm_accurate (L : Libm float) (x : float) : Prop :=
  (valid binary32 (sinf x) = true /\ isfinite (sinf x) = true
   /\ (Rabs (to_R (sinf x) - sin (to_R x)) <= / 2 ^ 23)%R)
  /\ (valid binary32 (cosf x) = true /\ isfinite (cosf x) = true
      /\ (Rabs (to_R (cosf x) - cos (to_R x)) <= / 2 ^ 23)%R).

(** A libm whose [sinf] and [cosf] return, at [x], one of the [k] numbers
    of binary32 on either side of the reference values, or these values. *)
Definition libm_close (k : nat) (L : Libm float) (x : float) : Prop :=
  In (sinf x) (around binary32 k (Reference.sin binary32 x))
  /\ In (cosf x) (around binary32 k (Reference.cos binary32 x)).

(** A libm that returns [s] and [c] whatever the argument. *)
Definition constant_Libm (s c : float) : Libm float :=
  {| sinf := fun _ => s; cosf := fun _ => c |}.

(** The angle of the tests: [2.0f * (float)M_PI * (12.0f / 200.0f)]. *)
Definition test_omega : float := (lit_2 * pi * (lit_12 / lit_200))%S.

(** A tiny, positive, finite resonance: [1e-40f]. *)
Definition lit_1e_40 : float := literal binary32 1 (10 ^ 40).

(** Positive infinity and [-0.0f]. *)
Definition pinf : float := S754_infinity false.
Definition nzero : float := S754_zero true.

(** [0x1p-100f], about 7.9e-31. *)
Definition lit_0x1p_100 : float := f32_2p_100.

(** [1e-5f] and [-1.0f]. *)
Definition lit_1e_5 : float := literal binary32 1 100000.
Definition lit_m1 : float := fneg (literal binary32 1 1).

(** The test filter under every pair of values that [libm_close k] allows
    for [sinf] and [cosf] at the angle of the tests. *)
Definition test_filters (k : nat) : list (BiquadFilter float) :=
  map (fun sc => MakeLowPass (LF := constant_Libm (fst sc) (snd sc))
                   lit_12 lit_200 lit_0_707)
      (list_prod (around binary32 k (Reference.sin binary32 test_omega))
                 (around binary32 k (Reference.cos binary32 test_omega))).

(** Strict order on fractions, as a test. *)
Definition Qltb (a b : Q) : bool := negb (Qle_bool b a).

(** The facts about the outputs of the tests that are checked on every
    one of these filters. *)
Definition step_check (filter : BiquadFilter float) : bool :=
  let output := step_output filter in
  isfinite output && Qltb (9 # 10) (to_Q output) && Qltb (to_Q output) (11 # 10)
  && flt lit_0_9 output && flt output lit_1_1.

Definition zero_check (filter : BiquadFilter float) : bool :=
  match zero_output filter with
  | S754_zero false => flt (fabs (zero_output filter)) lit_1e_6
  | _ => false
  end.

Definition decay_check (filter : BiquadFilter float) : bool :=
  let output := zero_output (snd (drive 200 lit_1 lit_0 filter)) in
  isfinite output && Qltb (2 # 1000000) (to_Q output) && Qltb (to_Q output) (3 # 1000000)
  && negb (flt (fabs output) lit_1e_6) && flt (fabs output) lit_1e_5.

(** ** Predicates on the results of the operations *)

(** What [binary_round_aux] makes of a final mantissa and exponent. *)
Definition of_mantissa (prec emax : Z) (s : bool) (m e : Z) : spec_float :=
  match m with
  | Z0 => S754_zero s
  | Zpos p => if e <=? emax - prec then S754_finite s p e else S754_infinity s
  | Zneg _ => S754_nan
  end.



(** [below k x]: [x] is a zero or a finite number with [|x| < 2^k]. *)
Definition below (k : Z) (x : spec_float) : Prop :=
  match x with
  | S754_zero _ => True
  | S754_finite _ m e => Zdigits2 (Zpos m) + e <= k
  | _ => False
  end.

(** [above k x]: [x] is a finite number with [2^(k-1) <= |x|]. *)
Definition above (k : Z) (x : spec_float) : Prop :=
  match x with
  | S754_finite _ m e => k <= Zdigits2 (Zpos m) + e
  | _ => False
  end.

(** [signed s x]: [x] is not a NaN and its sign bit is [s]. *)
Definition signed (s : bool) (x : spec_float) : Prop :=
  match x with
  | S754_zero s' | S754_infinity s' | S754_finite s' _ _ => s' = s
  | S754_nan => False
  end.

(** ** Assumptions on libm on a range of arguments

    A libm whose [sinf] returns well-formed numbers in [[0, 1]] and whose
    [cosf] returns well-formed numbers in [[-1, 1]] on the well-formed
    arguments in [[0, pi)]: it keeps the sign and the range of the sine
    and the range of the cosine there. *)
Definition libm_in_range (L : Libm float) : Prop :=
  forall x : float,
    valid binary32 x = true -> isfinite x = true -> (0 <= to_R x < PI)%R ->
    (valid binary32 (sinf x) = true
     /\ fle lit_0 (sinf x) = true /\ fle (sinf x) lit_1 = true)
    /\ (valid binary32 (cosf x) = true
        /\ fle lit_m1 (cosf x) = true /\ fle (cosf x) lit_1 = true).

(** The reference libm with its results brought back into [[0, 1]] and
    [[-1, 1]] where they leave them. *)
Definition clamp (lo hi y : float) : float :=
  if flt y lo then lo else if flt hi y then hi else y.

Definition clamped_Libm : Libm float :=
  {| sinf := fun x => clamp lit_0 lit_1 (Reference.sin binary32 x);
     cosf := fun x => clamp lit_m1 lit_1 (Reference.cos binary32 x) |}.

(** The number of binary32 just below [(float)M_PI]: [13176794 * 2^-22]. *)
Definition lit_below_pi : float := S754_finite false 13176794 (-22).

(** ** Successive calls on one object *)

(** The values that [Update] returns on the samples of a list, one call
    after the other on the same object, and the object after the last
    call. *)
Fixpoint updates {F : Type} {AF : Arith F} (f : BiquadFilter F) (samples : list F)
  : list F * BiquadFilter F :=
  match samples with
  | [] => ([], f)
  | sample :: samples =>
      let '(result, f) := Update f sample in
      let '(results, f) := updates f samples in
      (result :: results, f)
  end.

(** A zero of either sign: [x == 0.0f] on a number. *)
Definition iszero (x : spec_float) : bool :=
  match x with S754_zero _ => true | _ => false end.

(** A filter whose two delays are zeros. *)
Definition at_rest (f : BiquadFilter float) : bool := iszero (z1 f) && iszero (z2 f).

(** Two objects with the same five coefficients. *)
Definition same_coefficients {F : Type} (f g : BiquadFilter F) : Prop :=
  b0 g = b0 f /\ b1 g = b1 f /\ b2 g = b2 f /\ a1 g = a1 f /\ a2 g = a2 f.

(** ** The test program

    [test_filters.cpp] counts the failed checks in the global [failures]
    and writes to the two standard streams.  A state of the program is the
    counter and what has been written to each stream so far; every
    function of the file takes the state before it runs to the state after.
    The counter is an [int] that the program increments at most eight
    times, so that it is a number here. *)

Module Harness.

Import String Ascii.
Local Open Scope string_scope.

Record process := {
  failures : Z;
  stderr : string;
  stdout : string
}.

(** The program as it starts: [int failures = 0;] and nothing written. *)
Definition start : process := {| failures := 0; stderr := ""; stdout := "" |}.

(** The character that the source writes [\n]. *)
Definition newline : string := String "010"%char EmptyString.

(** The conversion [%d] of an [int]. *)
Definition format_d (n : Z) : string := DecimalString.NilZero.string_of_int (Z.to_int n).

(** [void Check(bool condition, const char *message)]. *)
Definition Check (condition : bool) (message : string) (p : process) : process :=
  if negb condition then
    {| failures := failures p + 1;
       stderr := stderr p ++ "FAIL: " ++ message ++ newline;
       stdout := stdout p |}
  else p.

Section Procedures.

Context {LF : Libm float}.

(** [void TestCoefficientsFinite()]. *)
Definition TestCoefficientsFinite (p : process) : process :=
  let filter := MakeLowPass lit_12 lit_200 lit_0_707 in
  let p := Check (isfinite (b0 filter)) "b0 finite" p in
  let p := Check (isfinite (b1 filter)) "b1 finite" p in
  let p := Check (isfinite (b2 filter)) "b2 finite" p in
  let p := Check (isfinite (a1 filter)) "a1 finite" p in
  let p := Check (isfinite (a2 filter)) "a2 finite" p in
  p.

(** [void TestStepResponse()]. *)
Definition TestStepResponse (p : process) : process :=
  let filter := MakeLowPass lit_12 lit_200 lit_0_707 in
  let output := lit_0 in
  let '(output, filter) := drive 200 lit_1 output filter in
  let p := Check (flt lit_0_9 output) "step response settles above 0.9" p in
  let p := Check (flt output lit_1_1) "step response settles below 1.1" p in
  p.

(** [void TestZeroInput()]. *)
Definition TestZeroInput (p : process) : process :=
  let filter := MakeLowPass lit_12 lit_200 lit_0_707 in
  let output := lit_0 in
  let '(output, filter) := drive 50 lit_0 output filter in
  let p := Check (flt (fabs output) lit_1e_6) "zero input stays near zero" p in
  p.

(** [int main()]: the returned status and the state at the return. *)
Definition main (p : process) : Z * process :=
  let p := TestCoefficientsFinite p in
  let p := TestStepResponse p in
  let p := TestZeroInput p in
  if (0 <? failures p)%Z then
    let p := {| failures := failures p;
                stderr := stderr p ++ format_d (failures p) ++ " test(s) failed." ++ newline;
                stdout := stdout p |} in
    (1, p)
  else
    let p := {| failures := failures p;
                stderr := stderr p;
                stdout := stdout p ++ "All tests passed." ++ newline |} in
    (0, p).

End Procedures.

End Harness.

(** ** The steady state of the exact filter *)


(** * Properties *)

(** ** The numbers of the source and of the tests *)

Example M_PI_value : M_PI = S754_finite false 7074237752028440 (-51).
Proof. vm_compute. reflexivity. Qed.

Example float_pi_value : (pi : float) = S754_finite false 13176795 (-22).
Proof. vm_compute. reflexivity. Qed.

Example literal_values :
  (lit_1 : float) = f32_1 /\ (lit_2 : float) = f32_2 /\ (lit_0_5 : float) = f32_0_5
  /\ lit_m1 = f32_m1
  /\ lit_12 = S754_finite false 12582912 (-20)
  /\ lit_200 = S754_finite false 13107200 (-16)
  /\ lit_0_707 = S754_finite false 11861492 (-24)
  /\ lit_1e_40 = S754_finite false 71362 (-149).
Proof. repeat split; vm_compute; reflexivity. Qed.

(** The angle of the tests is 12649723 * 2^-25, about 0.3769911; the
    reference sine and cosine there are about 0.3681245 and 0.9297765. *)
Example test_omega_value :
  test_omega = S754_finite false 12649723 (-25)
  /\ Reference.sin binary32 test_omega = S754_finite false 12352210 (-25)
  /\ Reference.cos binary32 test_omega = S754_finite false 15599061 (-24).
Proof. repeat split; vm_compute; reflexivity. Qed.

Example test_filter_value :
  MakeLowPass (LF := reference_Libm binary32) lit_12 lit_200 lit_0_707
  = {| b0 := S754_finite false 14956632 (-29);
       b1 := S754_finite false 14956632 (-28);
       b2 := S754_finite false 14956632 (-29);
       a1 := S754_finite true 12376842 (-23);
       a2 := S754_finite false 9846046 (-24);
       z1 := S754_zero false;
       z2 := S754_zero false |}.
Proof. vm_compute. reflexivity. Qed.

(** ** The struct and its two members *)

Section Members.

Context {F : Type} {AF : Arith F}.

Lemma Update_unfold (f : BiquadFilter F) (sample : F) :
  Update f sample =
    ((sample * b0 f + z1 f)%S,
     {| b0 := b0 f; b1 := b1 f; b2 := b2 f; a1 := a1 f; a2 := a2 f;
        z1 := (sample * b1 f + z2 f - a1 f * (sample * b0 f + z1 f))%S;
        z2 := (sample * b2 f - a2 f * (sample * b0 f + z1 f))%S |}).
Proof. destruct f; reflexivity. Qed.

(** C1.  [Update] returns [sample * b0 + z1]; the object it leaves has
    [z1 = sample * b1 + z2 - a1 * result] and [z2 = sample * b2 - a2 * result],
    with [z2] and the coefficients on the right-hand sides those before the
    call and [result] the returned value, and nothing else is changed.  It
    holds at every scalar type, binary32 with any libm among them. *)
Theorem Update_recurrence (f : BiquadFilter F) (sample : F) :
  let result := (sample * b0 f + z1 f)%S in
  Update f sample =
    (result,
     {| b0 := b0 f; b1 := b1 f; b2 := b2 f; a1 := a1 f; a2 := a2 f;
        z1 := (sample * b1 f + z2 f - a1 f * result)%S;
        z2 := (sample * b2 f - a2 f * result)%S |}).
Proof.
  destruct f as [c0 c1 c2 d1 d2 s1 s2].
  unfold Update, set_z2, set_z1; cbn [b0 b1 b2 a1 a2 z1 z2].
  reflexivity.
Qed.

(** C7.  [Reset] zeroes [z1] and [z2] whatever the object held, leaves the
    five coefficients as they were, and a second [Reset] changes nothing. *)
Theorem Reset_zeroes_and_is_idempotent (f : BiquadFilter F) :
  z1 (Reset f) = lit_0 /\ z2 (Reset f) = lit_0
  /\ b0 (Reset f) = b0 f /\ b1 (Reset f) = b1 f /\ b2 (Reset f) = b2 f
  /\ a1 (Reset f) = a1 f /\ a2 (Reset f) = a2 f
  /\ Reset (Reset f) = Reset f.
Proof.
  destruct f; unfold Reset, set_z2, set_z1; cbn.
  repeat split.
Qed.

(** C8.  Neither [Update] nor [Reset] changes one of [b0], [b1], [b2],
    [a1], [a2]: the objects before and after differ in [z1] and [z2] only. *)
Theorem coefficients_are_preserved (f : BiquadFilter F) (sample : F) :
  let after := snd (Update f sample) in
  (b0 after = b0 f /\ b1 after = b1 f /\ b2 after = b2 f
   /\ a1 after = a1 f /\ a2 after = a2 f)
  /\ (b0 (Reset f) = b0 f /\ b1 (Reset f) = b1 f /\ b2 (Reset f) = b2 f
      /\ a1 (Reset f) = a1 f /\ a2 (Reset f) = a2 f).
Proof.
  destruct f; cbn.
  repeat split.
Qed.

(** C10.  The filter of [MakeLowPass] has [b0] and [b2] equal, as values of
    the scalar type: for binary32, the same sign, mantissa and exponent, or
    both zero of one sign, both one infinity, or both NaN. *)
Theorem MakeLowPass_b0_is_b2 {LF : Libm F} (cutoffHz sampleRateHz q : F) :
  b0 (MakeLowPass cutoffHz sampleRateHz q) = b2 (MakeLowPass cutoffHz sampleRateHz q).
Proof.
  unfold MakeLowPass; cbn [set_b0 set_b1 set_b2 set_a1 set_a2 b0 b2].
  reflexivity.
Qed.

End Members.

(** ** The designer and the design formulas *)

Lemma MakeLowPass_unfold {F : Type} {AF : Arith F} {LF : Libm F} (cutoffHz sampleRateHz q : F) :
  let omega := (lit_2 * pi * (cutoffHz / sampleRateHz))%S in
  let alpha := (sinf omega / (lit_2 * q))%S in
  let a0 := (lit_1 + alpha)%S in
  MakeLowPass cutoffHz sampleRateHz q =
    {| b0 := ((lit_1 - cosf omega) * lit_0_5 / a0)%S;
       b1 := ((lit_1 - cosf omega) / a0)%S;
       b2 := ((lit_1 - cosf omega) * lit_0_5 / a0)%S;
       a1 := (- lit_2 * cosf omega / a0)%S;
       a2 := ((lit_1 - alpha) / a0)%S;
       z1 := lit_0;
       z2 := lit_0 |}.
Proof. reflexivity. Qed.

(** C2.  At every scalar type the filter of [MakeLowPass] holds the five
    raw coefficients of the design, each divided by [a0 = 1 + alpha], and
    two zero delays; read in exact arithmetic, these are the formulas of
    the specification: [omega = 2 pi cutoffHz / sampleRateHz],
    [alpha = sin omega / (2 q)], [(1 - cos omega) / 2], [1 - cos omega],
    [(1 - cos omega) / 2], [-2 cos omega] and [1 - alpha]. *)
Theorem MakeLowPass_is_the_cookbook_design :
  (forall (F : Type) (AF : Arith F) (LF : Libm F) (cutoffHz sampleRateHz q : F),
     let omega := (lit_2 * pi * (cutoffHz / sampleRateHz))%S in
     let alpha := (sinf omega / (lit_2 * q))%S in
     let b0_raw := ((lit_1 - cosf omega) * lit_0_5)%S in
     let b1_raw := (lit_1 - cosf omega)%S in
     let b2_raw := ((lit_1 - cosf omega) * lit_0_5)%S in
     let a0_raw := (lit_1 + alpha)%S in
     let a1_raw := (- lit_2 * cosf omega)%S in
     let a2_raw := (lit_1 - alpha)%S in
     MakeLowPass cutoffHz sampleRateHz q =
       {| b0 := (b0_raw / a0_raw)%S; b1 := (b1_raw / a0_raw)%S;
          b2 := (b2_raw / a0_raw)%S; a1 := (a1_raw / a0_raw)%S;
          a2 := (a2_raw / a0_raw)%S; z1 := lit_0; z2 := lit_0 |})
  /\ (forall cutoffHz sampleRateHz q : R,
        MakeLowPass (AF := real_Arith) (LF := real_Libm) cutoffHz sampleRateHz q
        = cookbook_lowpass cutoffHz sampleRateHz q).
Proof.
  split.
  - intros; apply MakeLowPass_unfold.
  - intros c s q.
    rewrite MakeLowPass_unfold; unfold cookbook_lowpass; cbn.
    assert (E : (2 * PI * (c / s) = 2 * PI * c / s)%R) by (unfold Rdiv; ring).
    rewrite E.
    replace (- (2))%R with (-2)%R by lra.
    reflexivity.
Qed.

(** ** Single precision, not double *)

(** C4, as stated, fails.  With the reference libm in both precisions,
    the filter of [MakeLowPass(12.0f, 200.0f, 0.707f)] is not the narrowed
    result of the double-precision derivation (they differ in the last
    place of [a1] and of [a2]); and at the resonance [1e-40f] the header
    stores a NaN in [a2], because [alpha] overflows binary32, where the
    double-precision derivation narrows to [-1.0f]. *)
Lemma MakeLowPass_is_not_the_double_evaluation :
  MakeLowPass (LF := reference_Libm binary32) lit_12 lit_200 lit_0_707
    <> double_lowpass (reference_Libm binary64) lit_12 lit_200 lit_0_707
  /\ a2 (MakeLowPass (LF := reference_Libm binary32) lit_12 lit_200 lit_1e_40) = S754_nan
  /\ a2 (double_lowpass (reference_Libm binary64) lit_12 lit_200 lit_1e_40) = lit_m1.
Proof.
  split; [ | split ].
  - intro E. apply (f_equal a2) in E. vm_compute in E. discriminate E.
  - vm_compute. reflexivity.
  - vm_compute. reflexivity.
Qed.

Lemma MakeLowPass_binary32 (L : Libm float) (cutoffHz sampleRateHz q : float) :
  MakeLowPass cutoffHz sampleRateHz q = single_lowpass sinf cosf cutoffHz sampleRateHz q.
Proof.
  rewrite MakeLowPass_unfold.
  reflexivity.
Qed.

(** C4, amended.  [MakeLowPass] evaluates the whole derivation in binary32:
    the angle, the results of [sinf] and [cosf], [alpha], the raw
    coefficients and the quotients are all rounded to binary32, and the
    only binary64 number, [M_PI], is converted before it is used. *)
Theorem MakeLowPass_is_the_single_evaluation (L : Libm float) (cutoffHz sampleRateHz q : float) :
  MakeLowPass cutoffHz sampleRateHz q = single_lowpass sinf cosf cutoffHz sampleRateHz q.
Proof. apply MakeLowPass_binary32. Qed.

(** ** Digits, shifts and rounding in [SpecFloat] *)

Lemma digits2_pos_size (p : positive) : digits2_pos p = Pos.size p.
Proof. induction p; cbn; congruence. Qed.

Lemma Zdigits2_log2 (M : Z) : 0 < M -> Zdigits2 M = Z.log2 M + 1.
Proof.
  destruct M as [ | p | p]; try lia; intros _.
  cbn [Zdigits2]; rewrite digits2_pos_size.
  destruct p; cbn [Pos.size Z.log2]; lia.
Qed.

Lemma Zdigits2_nonneg (M : Z) : 0 <= M -> 0 <= Zdigits2 M.
Proof. destruct M; cbn; lia. Qed.

Lemma Zdigits2_pos (M : Z) : 0 < M -> 1 <= Zdigits2 M.
Proof. destruct M; cbn; lia. Qed.

Lemma Zdigits2_bounds (M : Z) :
  0 < M -> 2 ^ (Zdigits2 M - 1) <= M < 2 ^ Zdigits2 M.
Proof.
  intro H. rewrite Zdigits2_log2 by assumption.
  replace (Z.log2 M + 1 - 1) with (Z.log2 M) by lia.
  replace (Z.log2 M + 1) with (Z.succ (Z.log2 M)) by lia.
  apply Z.log2_spec, H.
Qed.

Lemma Zdigits2_le (M k : Z) : 0 <= k -> 0 <= M < 2 ^ k -> Zdigits2 M <= k.
Proof.
  intros Hk [H0 H].
  destruct (Z.eq_dec M 0) as [-> | Hne]; [ cbn; lia | ].
  rewrite Zdigits2_log2 by lia.
  assert (Z.log2 M < k) by (apply Z.log2_lt_pow2; lia).
  lia.
Qed.

Lemma Zdigits2_ge (M k : Z) : 0 <= k -> 2 ^ k <= M -> k + 1 <= Zdigits2 M.
Proof.
  intros Hk H.
  assert (0 < 2 ^ k) by (apply Z.pow_pos_nonneg; lia).
  rewrite Zdigits2_log2 by lia.
  assert (k <= Z.log2 M) by (apply Z.log2_le_pow2; lia).
  lia.
Qed.

Lemma Zdigits2_mono (a b : Z) : 0 <= a <= b -> Zdigits2 a <= Zdigits2 b.
Proof.
  intros [Ha Hab].
  destruct (Z.eq_dec a 0) as [-> | Hne]; [ cbn; apply Zdigits2_nonneg; lia | ].
  rewrite !Zdigits2_log2 by lia.
  assert (Z.log2 a <= Z.log2 b) by (apply Z.log2_le_mono; lia).
  lia.
Qed.

Lemma Zdigits2_div_pow2 (M n : Z) :
  0 <= M -> 0 <= n -> Zdigits2 (M / 2 ^ n) = Z.max (Zdigits2 M - n) 0.
Proof.
  intros HM Hn.
  assert (Hp : 0 < 2 ^ n) by (apply Z.pow_pos_nonneg; lia).
  destruct (Z.eq_dec M 0) as [-> | Hne].
  { rewrite Z.div_0_l by lia. cbn. lia. }
  assert (HM' : 0 < M) by lia.
  destruct (Z_lt_le_dec M (2 ^ n)) as [Hlt | Hge].
  - rewrite Z.div_small by lia.
    assert (Zdigits2 M <= n) by (apply Zdigits2_le; lia).
    cbn [Zdigits2]. lia.
  - assert (Hq : 0 < M / 2 ^ n) by (apply Z.div_str_pos; lia).
    rewrite (Zdigits2_log2 _ Hq), (Zdigits2_log2 _ HM').
    rewrite <- Z.shiftr_div_pow2 by lia.
    rewrite Z.log2_shiftr by lia.
    assert (n <= Z.log2 M) by (apply Z.log2_le_pow2; lia).
    lia.
Qed.

Lemma Zdigits2_mul_pow2 (M n : Z) :
  0 < M -> 0 <= n -> Zdigits2 (M * 2 ^ n) = Zdigits2 M + n.
Proof.
  intros HM Hn.
  assert (Hp : 0 < 2 ^ n) by (apply Z.pow_pos_nonneg; lia).
  rewrite !Zdigits2_log2 by nia.
  rewrite <- Z.shiftl_mul_pow2 by lia.
  rewrite Z.log2_shiftl by lia.
  lia.
Qed.

Lemma Zdigits2_mul (a b : Z) :
  0 < a -> 0 < b ->
  Zdigits2 a + Zdigits2 b - 1 <= Zdigits2 (a * b) <= Zdigits2 a + Zdigits2 b.
Proof.
  intros Ha Hb.
  pose proof (Zdigits2_bounds a Ha) as [La Ua].
  pose proof (Zdigits2_bounds b Hb) as [Lb Ub].
  pose proof (Zdigits2_pos a Ha). pose proof (Zdigits2_pos b Hb).
  split.
  - assert (2 ^ (Zdigits2 a - 1 + (Zdigits2 b - 1)) <= a * b).
    { rewrite Z.pow_add_r by lia.
      apply Z.mul_le_mono_nonneg; try lia; apply Z.pow_nonneg; lia. }
    apply Zdigits2_ge in H1; lia.
  - apply Zdigits2_le; [ lia | ].
    split; [ nia | ].
    rewrite Z.pow_add_r by lia.
    apply Z.mul_lt_mono_nonneg; lia.
Qed.
Lemma iter_pos_nat {A : Type} (f : A -> A) (p : positive) (x : A) :
  iter_pos f p x = Nat.iter (Pos.to_nat p) f x.
Proof.
  revert x; induction p as [p IH | p IH | ]; intro x; cbn [iter_pos].
  - rewrite !IH, Pos2Nat.inj_xI.
    rewrite Nat.iter_succ_r.
    replace (2 * Pos.to_nat p)%nat with (Pos.to_nat p + Pos.to_nat p)%nat by lia.
    rewrite Nat.iter_add. reflexivity.
  - rewrite !IH, Pos2Nat.inj_xO.
    replace (2 * Pos.to_nat p)%nat with (Pos.to_nat p + Pos.to_nat p)%nat by lia.
    rewrite Nat.iter_add. reflexivity.
  - reflexivity.
Qed.

Lemma shr_1_spec (m : Z) (r s : bool) :
  0 <= m ->
  shr_1 {| shr_m := m; shr_r := r; shr_s := s |}
  = {| shr_m := m / 2; shr_r := Z.odd m; shr_s := r || s |}.
Proof.
  intro Hm. rewrite <- Z.div2_div.
  destruct m as [ | [p | p | ] | p]; try lia; reflexivity.
Qed.

Lemma shr_iter_spec (n : nat) (M : Z) (r s : bool) :
  0 <= M ->
  Nat.iter (S n) shr_1 {| shr_m := M; shr_r := r; shr_s := s |}
  = {| shr_m := M / 2 ^ Z.of_nat (S n);
       shr_r := Z.testbit M (Z.of_nat n);
       shr_s := negb (M mod 2 ^ Z.of_nat n =? 0) || r || s |}.
Proof.
  intro HM. induction n as [ | n IH].
  - cbn [Nat.iter nat_rect]. rewrite shr_1_spec by assumption.
    change (Z.of_nat 1) with 1; change (Z.of_nat 0) with 0.
    rewrite Z.pow_1_r, Z.pow_0_r, Z.mod_1_r, Z.bit0_odd. reflexivity.
  - rewrite Nat.iter_succ, IH.
    assert (Hp : 0 < 2 ^ Z.of_nat (S n)) by (apply Z.pow_pos_nonneg; lia).
    assert (Hp' : 0 < 2 ^ Z.of_nat n) by (apply Z.pow_pos_nonneg; lia).
    rewrite shr_1_spec by (apply Z.div_pos; lia).
    f_equal.
    + rewrite Z.div_div by lia.
      rewrite (Nat2Z.inj_succ (S n)), Z.pow_succ_r by lia.
      f_equal; lia.
    + rewrite (Z.testbit_odd M (Z.of_nat (S n))), Z.shiftr_div_pow2 by lia.
      reflexivity.
    + rewrite (Nat2Z.inj_succ n), Z.pow_succ_r by lia.
      rewrite (Z.mul_comm 2), Z.rem_mul_r by lia.
      rewrite <- Z.testbit_spec' by lia.
      pose proof (Z.mod_pos_bound M (2 ^ Z.of_nat n) Hp').
      destruct (Z.testbit M (Z.of_nat n)); cbn [Z.b2z];
        destruct (Z.eqb_spec (M mod 2 ^ Z.of_nat n) 0) as [E0 | E0];
        destruct r, s; cbn [negb orb];
        try reflexivity;
        match goal with
        | |- context [?x =? 0] => destruct (Z.eqb_spec x 0); try reflexivity; try lia; try nia
        end.
Qed.

Lemma shr_m_of_loc (m : Z) (l : location) : shr_m (shr_record_of_loc m l) = m.
Proof. destruct l as [ | [ | | ]]; reflexivity. Qed.

Lemma shr_m_iter (n : nat) (mrs : shr_record) :
  0 <= shr_m mrs ->
  shr_m (Nat.iter n shr_1 mrs) = shr_m mrs / 2 ^ Z.of_nat n.
Proof.
  intro H. destruct n as [ | n].
  - cbn. rewrite Z.div_1_r. reflexivity.
  - destruct mrs as [m r s]. cbn [shr_m] in H |- *.
    rewrite shr_iter_spec by assumption. reflexivity.
Qed.

Lemma below_isfinite (k : Z) (x : spec_float) : below k x -> isfinite x = true.
Proof. destruct x; cbn; tauto. Qed.

Lemma below_le (k k' : Z) (x : spec_float) : k <= k' -> below k x -> below k' x.
Proof. destruct x; cbn; try tauto; lia. Qed.

Section Rounding.

Variables prec emax : Z.
Hypothesis Hprec : 0 < prec.
Hypothesis Hemax : prec < emax.

Local Abbreviation fexp := (SpecFloat.fexp prec emax).
Local Abbreviation emin := (SpecFloat.emin prec emax).

Lemma shr_fexp_spec (M E : Z) (l : location) :
  0 <= M ->
  let e1 := Z.max E (fexp (Zdigits2 M + E)) in
  exists mrs,
    shr_fexp prec emax M E l = (mrs, e1)
    /\ shr_m mrs = M / 2 ^ (e1 - E)
    /\ (l = loc_Exact -> E < e1 -> shr_r mrs = Z.testbit M (e1 - E - 1)).
Proof.
  intros HM e1. unfold shr_fexp, shr.
  destruct (fexp (Zdigits2 M + E) - E) as [ | p | p] eqn:En.
  - exists (shr_record_of_loc M l). replace e1 with E by lia.
    rewrite Z.sub_diag, Z.pow_0_r, Z.div_1_r, shr_m_of_loc.
    repeat split; lia.
  - exists (iter_pos shr_1 p (shr_record_of_loc M l)).
    replace e1 with (E + Z.pos p) by lia. split; [ reflexivity | split ].
    + rewrite iter_pos_nat, shr_m_iter, shr_m_of_loc by (rewrite shr_m_of_loc; exact HM).
      rewrite positive_nat_Z. f_equal; f_equal; lia.
    + intros -> _. rewrite iter_pos_nat. cbn [shr_record_of_loc].
      destruct (Pos.to_nat p) as [ | n] eqn:Ep; [ lia | ].
      rewrite shr_iter_spec by exact HM. cbn [shr_r].
      f_equal. lia.
  - exists (shr_record_of_loc M l). replace e1 with E by lia.
    rewrite Z.sub_diag, Z.pow_0_r, Z.div_1_r, shr_m_of_loc.
    repeat split; lia.
Qed.

Lemma round_nearest_even_bounds (m : Z) (l : location) :
  m <= round_nearest_even m l <= m + 1.
Proof.
  destruct l as [ | [ | | ]]; cbn; try lia.
  destruct (Z.even m); lia.
Qed.

Lemma Zdigits2_succ (a b : Z) :
  0 <= a -> a <= b <= a + 1 -> Zdigits2 a <= Zdigits2 b <= Zdigits2 a + 1.
Proof.
  intros Ha Hb. split.
  - apply Zdigits2_mono; lia.
  - destruct (Z.eq_dec a 0) as [-> | Hne].
    + cbn [Zdigits2]. apply Zdigits2_le; [ lia | ]. change (2 ^ (0 + 1)) with 2. lia.
    + pose proof (Zdigits2_bounds a ltac:(lia)) as [_ U].
      pose proof (Zdigits2_pos a ltac:(lia)).
      apply Zdigits2_le; [ lia | ].
      rewrite Z.pow_add_r, Z.pow_1_r by lia. lia.
Qed.

Lemma Zdigits2_zero_iff (M : Z) : 0 <= M -> (Zdigits2 M = 0 <-> M = 0).
Proof.
  intro H; split; intro E.
  - destruct M; cbn in E; lia.
  - subst; reflexivity.
Qed.

Lemma round_nearest_even_down (mrs : shr_record) :
  shr_r mrs = false -> round_nearest_even (shr_m mrs) (loc_of_shr_record mrs) = shr_m mrs.
Proof. destruct mrs as [m [ | ] [ | ]]; cbn; congruence. Qed.

(** The result of [binary_round_aux] on a mantissa that is not negative:
    the mantissa [m1] left by the first shift, the mantissa [m2] after
    rounding, and the mantissa and exponent of the result. *)
Lemma binary_round_aux_steps (s : bool) (M E : Z) (l : location) :
  0 <= M ->
  let e1 := Z.max E (fexp (Zdigits2 M + E)) in
  let m1 := M / 2 ^ (e1 - E) in
  exists m2,
    let e3 := Z.max e1 (fexp (Zdigits2 m2 + e1)) in
    let m3 := m2 / 2 ^ (e3 - e1) in
    binary_round_aux prec emax s M E l = of_mantissa prec emax s m3 e3
    /\ m1 <= m2 <= m1 + 1
    /\ (l = loc_Exact -> E < e1 -> Z.testbit M (e1 - E - 1) = false -> m2 = m1).
Proof.
  intros HM e1 m1. unfold binary_round_aux.
  destruct (shr_fexp_spec M E l HM) as (mrs1 & -> & Hm1 & Hr1).
  fold e1 in Hm1, Hr1 |- *. fold m1 in Hm1.
  set (m2 := round_nearest_even (shr_m mrs1) (loc_of_shr_record mrs1)).
  assert (Hp1 : 0 < 2 ^ (e1 - E)) by (apply Z.pow_pos_nonneg; lia).
  assert (H0m1 : 0 <= m1) by (apply Z.div_pos; lia).
  pose proof (round_nearest_even_bounds (shr_m mrs1) (loc_of_shr_record mrs1)) as Hm2.
  fold m2 in Hm2. rewrite Hm1 in Hm2.
  assert (H0m2 : 0 <= m2) by lia.
  destruct (shr_fexp_spec m2 e1 loc_Exact H0m2) as (mrs3 & -> & Hm3 & _).
  exists m2. cbv zeta. rewrite <- Hm3.
  split; [ reflexivity | split; [ exact Hm2 | ] ].
  intros Hl Hlt Hbit. unfold m2.
  rewrite round_nearest_even_down, Hm1; [ reflexivity | ].
  rewrite Hr1 by assumption. exact Hbit.
Qed.

Lemma binary_round_aux_spec (s : bool) (M E : Z) (l : location) :
  0 <= M ->
  exists m e,
    binary_round_aux prec emax s M E l = of_mantissa prec emax s m e
    /\ 0 <= m
    /\ e <= Z.max E (Z.max (Zdigits2 M + E + 1 - prec) emin)
    /\ Zdigits2 m + e <= Z.max (Zdigits2 M + E) emin + 1
    /\ (E <= fexp (Zdigits2 M + E) -> 0 < m -> fexp (Zdigits2 m + e) = e)
    /\ (0 < M -> emin + prec <= Zdigits2 M + E ->
        0 < m /\ Zdigits2 M + E <= Zdigits2 m + e).
Proof.
  intro HM.
  destruct (binary_round_aux_steps s M E l HM) as (m2 & Hr & Hm2 & _).
  set (e1 := Z.max E (fexp (Zdigits2 M + E))) in *.
  set (m1 := M / 2 ^ (e1 - E)) in *.
  set (e3 := Z.max e1 (fexp (Zdigits2 m2 + e1))) in *.
  set (m3 := m2 / 2 ^ (e3 - e1)) in *.
  assert (Hp1 : 0 < 2 ^ (e1 - E)) by (apply Z.pow_pos_nonneg; lia).
  assert (H0m1 : 0 <= m1) by (apply Z.div_pos; lia).
  assert (H0m2 : 0 <= m2) by lia.
  assert (Hp3 : 0 < 2 ^ (e3 - e1)) by (apply Z.pow_pos_nonneg; lia).
  assert (H0m3 : 0 <= m3) by (apply Z.div_pos; lia).
  exists m3, e3.
  assert (Hd1 : Zdigits2 m1 = Z.max (Zdigits2 M - (e1 - E)) 0).
  { apply Zdigits2_div_pow2; lia. }
  assert (Hd3 : Zdigits2 m3 = Z.max (Zdigits2 m2 - (e3 - e1)) 0).
  { apply Zdigits2_div_pow2; lia. }
  pose proof (Zdigits2_succ m1 m2 H0m1 Hm2) as Hd2.
  pose proof (Zdigits2_nonneg M HM) as HdM.
  pose proof (Zdigits2_zero_iff m3 H0m3) as Hz3.
  pose proof (Zdigits2_nonneg m3 H0m3) as Hd3'.
  split; [ exact Hr | ].
  split; [ exact H0m3 | ].
  clearbody m1 m3.
  unfold e3, e1, SpecFloat.fexp, SpecFloat.emin in *.
  repeat split; try lia.
  match goal with HM0 : 0 < M |- _ => pose proof (Zdigits2_pos M HM0) end.
  assert (Zdigits2 m3 <> 0) by lia. lia.
Qed.

Lemma of_mantissa_signed (s : bool) (m e : Z) :
  0 <= m -> signed s (of_mantissa prec emax s m e).
Proof.
  destruct m as [ | p | p]; cbn; try lia; intros _; [ reflexivity | ].
  destruct (e <=? emax - prec); reflexivity.
Qed.

Lemma of_mantissa_below (s : bool) (m e k : Z) :
  0 <= m -> e <= emax - prec -> Zdigits2 m + e <= k ->
  below k (of_mantissa prec emax s m e).
Proof.
  destruct m as [ | p | p]; cbn [of_mantissa]; try lia; intros _ He Hk; [ exact I | ].
  apply Z.leb_le in He; rewrite He. exact Hk.
Qed.

Lemma of_mantissa_valid (s : bool) (m e : Z) :
  (0 < m -> fexp (Zdigits2 m + e) = e) ->
  valid_binary prec emax (of_mantissa prec emax s m e) = true.
Proof.
  destruct m as [ | p | p]; cbn [of_mantissa]; try reflexivity; intro H.
  destruct (e <=? emax - prec) eqn:He; [ | reflexivity ].
  cbn [valid_binary]. unfold bounded, canonical_mantissa.
  rewrite He, andb_true_r. apply Z.eqb_eq, H. lia.
Qed.

Lemma round_aux_below (s : bool) (M E : Z) (l : location) (k : Z) :
  0 <= M -> E <= emax - prec -> Zdigits2 M + E <= k -> emin <= k -> k < emax ->
  below (k + 1) (binary_round_aux prec emax s M E l).
Proof.
  intros HM HE Hk Hmin Hmax.
  destruct (binary_round_aux_spec s M E l HM)
    as (m & e & -> & Hm & He & Hmag & _).
  unfold SpecFloat.emin in *.
  apply of_mantissa_below; lia.
Qed.

Lemma round_aux_signed (s : bool) (M E : Z) (l : location) :
  0 <= M -> signed s (binary_round_aux prec emax s M E l).
Proof.
  intro HM.
  destruct (binary_round_aux_spec s M E l HM) as (m & e & -> & Hm & _).
  apply of_mantissa_signed, Hm.
Qed.

(** *** Multiplication *)

Lemma mul_below (k1 k2 : Z) (x y : spec_float) :
  below k1 x -> below k2 y ->
  emin <= k1 + k2 -> k1 + k2 < emax -> k1 + k2 - 2 <= emax - prec ->
  below (k1 + k2 + 1) (SFmul prec emax x y).
Proof.
  destruct x as [sx | sx | | sx mx ex], y as [sy | sy | | sy my ey];
    cbn [below SFmul]; try tauto.
  intros Hx Hy Hmin Hmax He.
  pose proof (Zdigits2_mul (Zpos mx) (Zpos my) ltac:(lia) ltac:(lia)) as [_ Hd].
  pose proof (Zdigits2_pos (Zpos mx) ltac:(lia)).
  pose proof (Zdigits2_pos (Zpos my) ltac:(lia)).
  apply round_aux_below; try lia.
  change (Z.pos (mx * my)) with (Zpos mx * Zpos my). lia.
Qed.

(** *** Addition and subtraction *)

Lemma shl_align_spec (m : positive) (e e' : Z) :
  snd (shl_align m e e') = Z.min e e'
  /\ Zpos (fst (shl_align m e e')) = Zpos m * 2 ^ (e - Z.min e e').
Proof.
  unfold shl_align.
  destruct (e' - e) as [ | d | d] eqn:Ed; cbn [fst snd].
  - replace (Z.min e e') with e by lia. rewrite Z.sub_diag, Z.pow_0_r. lia.
  - replace (Z.min e e') with e by lia. rewrite Z.sub_diag, Z.pow_0_r. lia.
  - replace (Z.min e e') with e' by lia. split; [ reflexivity | ].
    change (Pos.iter xO m d) with (shift_pos d m).
    rewrite shift_pos_correct, Z.pow_pos_fold.
    replace (e - e') with (Z.pos d) by lia. lia.
Qed.

Lemma binary_round_as_aux (s : bool) (m : positive) (e : Z) :
  exists M E,
    binary_round prec emax s m e = binary_round_aux prec emax s M E loc_Exact
    /\ 0 < M /\ E <= e
    /\ Zdigits2 M + E = Zdigits2 (Zpos m) + e
    /\ E <= fexp (Zdigits2 M + E)
    /\ M = Zpos m * 2 ^ (e - E).
Proof.
  unfold binary_round.
  pose proof (shl_align_spec m e (fexp (Z.pos (digits2_pos m) + e))) as [He Hm].
  destruct (shl_align m e (fexp (Z.pos (digits2_pos m) + e))) as [mz ez].
  cbn [fst snd] in He, Hm.
  exists (Zpos mz), ez.
  assert (Hd : Zdigits2 (Zpos mz) = Zdigits2 (Zpos m) + (e - ez)).
  { rewrite Hm, He. apply Zdigits2_mul_pow2; lia. }
  change (Z.pos (digits2_pos m)) with (Zdigits2 (Zpos m)) in He.
  repeat split; try lia.
  - rewrite Hd. replace (Zdigits2 (Z.pos m) + (e - ez) + ez) with (Zdigits2 (Zpos m) + e) by lia.
    lia.
  - rewrite Hm, He. reflexivity.
Qed.

Lemma binary_round_below (s : bool) (m : positive) (e k : Z) :
  e <= emax - prec -> Zdigits2 (Zpos m) + e <= k -> emin <= k -> k < emax ->
  below (k + 1) (binary_round prec emax s m e).
Proof.
  intros He Hk Hmin Hmax.
  destruct (binary_round_as_aux s m e) as (M & E & -> & HM & HE & Hd & _).
  apply round_aux_below; lia.
Qed.

Lemma binary_normalize_below (V e k : Z) :
  e <= emax - prec -> Zdigits2 V + e <= k -> emin <= k -> k < emax ->
  below (k + 1) (binary_normalize prec emax V e false).
Proof.
  intros He Hk Hmin Hmax.
  destruct V as [ | p | p]; cbn [binary_normalize]; [ exact I | | ];
    apply binary_round_below; assumption.
Qed.

Lemma aligned_bound (m : positive) (e ez k : Z) :
  ez <= e -> Zdigits2 (Zpos m) + e <= k ->
  0 < Zpos (fst (shl_align m e ez)) < 2 ^ (k - ez).
Proof.
  intros Hez Hk.
  pose proof (shl_align_spec m e ez) as [_ ->].
  replace (Z.min e ez) with ez by lia.
  pose proof (Zdigits2_bounds (Zpos m) ltac:(lia)) as [_ U].
  assert (0 < 2 ^ (e - ez)) by (apply Z.pow_pos_nonneg; lia).
  split; [ lia | ].
  apply Z.lt_le_trans with (2 ^ Zdigits2 (Zpos m) * 2 ^ (e - ez)).
  - apply Z.mul_lt_mono_pos_r; assumption.
  - pose proof (Zdigits2_pos (Zpos m) ltac:(lia)).
    rewrite <- Z.pow_add_r by lia.
    apply Z.pow_le_mono_r; lia.
Qed.

Lemma sum_digits (a b n : Z) :
  0 <= n -> Z.abs a < 2 ^ n -> Z.abs b < 2 ^ n -> Zdigits2 (a + b) <= n + 1.
Proof.
  intros Hn Ha Hb.
  assert (Habs : Zdigits2 (a + b) = Zdigits2 (Z.abs (a + b))).
  { destruct (a + b); reflexivity. }
  rewrite Habs. apply Zdigits2_le; [ lia | ].
  rewrite Z.pow_add_r, Z.pow_1_r by lia. lia.
Qed.

Lemma add_sub_below (k : Z) (x y : spec_float) :
  below k x -> below k y ->
  emin <= k + 1 -> k + 1 < emax -> k - 1 <= emax - prec ->
  below (k + 2) (SFadd prec emax x y) /\ below (k + 2) (SFsub prec emax x y).
Proof.
  destruct x as [sx | sx | | sx mx ex], y as [sy | sy | | sy my ey];
    cbn [below]; try tauto; intros Hx Hy Hmin Hmax He.
  - destruct sx, sy; cbn; tauto.
  - cbn in *; lia.
  - cbn in *; lia.
  - pose proof (Zdigits2_pos (Zpos mx) ltac:(lia)).
    pose proof (Zdigits2_pos (Zpos my) ltac:(lia)).
    pose proof (aligned_bound mx ex (Z.min ex ey) k ltac:(lia) Hx) as Bx.
    pose proof (aligned_bound my ey (Z.min ex ey) k ltac:(lia) Hy) as By.
    cbn [SFadd SFsub]; cbv zeta.
    set (ax := Zpos (fst (shl_align mx ex (Z.min ex ey)))) in *.
    set (ay := Zpos (fst (shl_align my ey (Z.min ex ey)))) in *.
    split.
    + replace (k + 2) with (k + 1 + 1) by lia.
      apply binary_normalize_below; try lia.
      assert (Zdigits2 (cond_Zopp sx ax + cond_Zopp sy ay) <= k - Z.min ex ey + 1).
      { apply sum_digits; [ lia | destruct sx; cbn; lia | destruct sy; cbn; lia ]. }
      lia.
    + replace (k + 2) with (k + 1 + 1) by lia.
      apply binary_normalize_below; try lia.
      assert (Zdigits2 (cond_Zopp sx ax + - cond_Zopp sy ay) <= k - Z.min ex ey + 1).
      { apply sum_digits; [ lia | destruct sx; cbn; lia | destruct sy; cbn; lia ]. }
      rewrite <- Z.add_opp_r. lia.
Qed.

(** The sum of two positive numbers, in the normal range: positive, and
    no smaller in magnitude than the first. *)
Lemma add_pos_above (mx my : positive) (ex ey k : Z) :
  let x := S754_finite false mx ex in
  let y := S754_finite false my ey in
  below k x -> below k y ->
  k + 1 < emax -> k - 1 <= emax - prec ->
  emin + prec <= Zdigits2 (Zpos mx) + ex ->
  exists m e,
    SFadd prec emax x y = S754_finite false m e
    /\ Zdigits2 (Zpos mx) + ex <= Zdigits2 (Zpos m) + e
    /\ Zdigits2 (Zpos m) + e <= k + 2.
Proof.
  intros x y Hx Hy Hmax He Hn. cbn [below x y] in Hx, Hy.
  pose proof (Zdigits2_pos (Zpos mx) ltac:(lia)).
  pose proof (Zdigits2_pos (Zpos my) ltac:(lia)).
  pose proof (aligned_bound mx ex (Z.min ex ey) k ltac:(lia) Hx) as Bx.
  pose proof (aligned_bound my ey (Z.min ex ey) k ltac:(lia) Hy) as By.
  pose proof (shl_align_spec mx ex (Z.min ex ey)) as [_ Ax].
  unfold x, y; cbn [SFadd cond_Zopp]; cbv zeta.
  set (ax := Zpos (fst (shl_align mx ex (Z.min ex ey)))) in *.
  set (ay := Zpos (fst (shl_align my ey (Z.min ex ey)))) in *.
  replace (Z.min ex (Z.min ex ey)) with (Z.min ex ey) in Ax by lia.
  assert (Hdx : Zdigits2 ax = Zdigits2 (Zpos mx) + (ex - Z.min ex ey)).
  { rewrite Ax. apply Zdigits2_mul_pow2; lia. }
  assert (Hlo : Zdigits2 ax <= Zdigits2 (ax + ay)) by (apply Zdigits2_mono; lia).
  assert (Hhi : Zdigits2 (ax + ay) <= k - Z.min ex ey + 1).
  { apply sum_digits; lia. }
  destruct (ax + ay) as [ | p | p] eqn:Ep; try lia.
  cbn [binary_normalize].
  destruct (binary_round_as_aux false p (Z.min ex ey)) as (M & E & -> & HM & HE & Hd & _).
  destruct (binary_round_aux_spec false M E loc_Exact ltac:(lia))
    as (m & e & -> & Hm & Hee & Hmag & _ & Hlow).
  destruct (Hlow HM ltac:(lia)) as [Hm0 Hge].
  destruct m as [ | m | m]; try lia.
  exists m, e. cbn [of_mantissa].
  unfold SpecFloat.emin in *.
  assert (Hfin : (e <=? emax - prec) = true) by (apply Z.leb_le; lia).
  rewrite Hfin. repeat split; lia.
Qed.


(** *** Division *)

Lemma div_core_spec (m1 m2 : positive) (e1 e2 : Z) :
  let D := Zdigits2 (Zpos m1) + e1 - (Zdigits2 (Zpos m2) + e2) in
  let e' := Z.min (fexp D) (e1 - e2) in
  exists l,
    SFdiv_core_binary prec emax (Zpos m1) e1 (Zpos m2) e2
    = (Zpos m1 * 2 ^ (e1 - e2 - e') / Zpos m2, e', l).
Proof.
  intros D e'. unfold SFdiv_core_binary.
  fold D. fold e'.
  assert (Hs : 0 <= e1 - e2 - e') by lia.
  assert (Hm : match e1 - e2 - e' with
               | 0 => Zpos m1
               | Zpos _ => Z.shiftl (Zpos m1) (e1 - e2 - e')
               | Zneg _ => 0
               end = Zpos m1 * 2 ^ (e1 - e2 - e')).
  { destruct (e1 - e2 - e') as [ | p | p] eqn:Es; try lia.
    apply Z.shiftl_mul_pow2; lia. }
  rewrite Hm.
  unfold Z.div.
  destruct (Z.div_eucl (Zpos m1 * 2 ^ (e1 - e2 - e')) (Zpos m2)) as [q r].
  exists (new_location (Zpos m2) r). reflexivity.
Qed.

Lemma div_digits (N m : Z) :
  0 < N -> 0 < m ->
  Zdigits2 (N / m) <= Z.max (Zdigits2 N - Zdigits2 m + 1) 0
  /\ (0 <= Zdigits2 N - Zdigits2 m - 1 -> Zdigits2 N - Zdigits2 m <= Zdigits2 (N / m)).
Proof.
  intros HN Hm.
  pose proof (Zdigits2_bounds N HN) as [LN UN].
  pose proof (Zdigits2_bounds m Hm) as [Lm Um].
  pose proof (Zdigits2_pos N HN). pose proof (Zdigits2_pos m Hm).
  assert (Hp : 0 < 2 ^ (Zdigits2 m - 1)) by (apply Z.pow_pos_nonneg; lia).
  split.
  - replace (Z.max (Zdigits2 N - Zdigits2 m + 1) 0)
      with (Zdigits2 (N / 2 ^ (Zdigits2 m - 1)))
      by (rewrite Zdigits2_div_pow2 by lia; lia).
    apply Zdigits2_mono. split.
    + apply Z.div_pos; lia.
    + apply Z.div_le_compat_l; lia.
  - intro Hge.
    assert (2 ^ (Zdigits2 N - Zdigits2 m - 1) <= N / m).
    { apply Z.div_le_lower_bound; [ lia | ].
      apply Z.le_trans with (2 ^ Zdigits2 m * 2 ^ (Zdigits2 N - Zdigits2 m - 1)).
      - apply Z.mul_le_mono_nonneg_r; [ apply Z.pow_nonneg | ]; lia.
      - rewrite <- Z.pow_add_r by lia.
        replace (Zdigits2 m + (Zdigits2 N - Zdigits2 m - 1)) with (Zdigits2 N - 1) by lia.
        exact LN. }
    apply Zdigits2_ge in H1; lia.
Qed.

Lemma div_finite_spec (sx sy : bool) (mx my : positive) (ex ey : Z) :
  let D := Zdigits2 (Zpos mx) + ex - (Zdigits2 (Zpos my) + ey) in
  exists m e,
    SFdiv prec emax (S754_finite sx mx ex) (S754_finite sy my ey)
    = of_mantissa prec emax (xorb sx sy) m e
    /\ 0 <= m
    /\ e <= Z.max (D + 2 - prec) emin
    /\ Zdigits2 m + e <= Z.max (D + 1) emin + 1
    /\ (0 < m -> fexp (Zdigits2 m + e) = e).
Proof.
  intro D. cbn [SFdiv].
  destruct (div_core_spec mx my ex ey) as (l & ->). fold D.
  set (e' := Z.min (fexp D) (ex - ey)).
  set (N := Zpos mx * 2 ^ (ex - ey - e')).
  assert (Hs : 0 <= ex - ey - e') by lia.
  assert (Hp : 0 < 2 ^ (ex - ey - e')) by (apply Z.pow_pos_nonneg; lia).
  assert (HN : 0 < N) by (unfold N; lia).
  assert (HdN : Zdigits2 N = Zdigits2 (Zpos mx) + (ex - ey - e')).
  { apply Zdigits2_mul_pow2; lia. }
  assert (Hq : 0 <= N / Zpos my) by (apply Z.div_pos; lia).
  destruct (div_digits N (Zpos my) HN ltac:(lia)) as [Hup Hlow].
  destruct (binary_round_aux_spec (xorb sx sy) (N / Zpos my) e' l Hq)
    as (m & e & -> & Hm & He & Hmag & Hcan & _).
  exists m, e.
  split; [ reflexivity | ].
  split; [ exact Hm | ].
  unfold e', SpecFloat.fexp, SpecFloat.emin in *.
  repeat split; lia.
Qed.

Lemma div_below (k j : Z) (x y : spec_float) :
  below k x -> above j y ->
  emin <= k - j + 1 -> k - j + 1 < emax ->
  below (k - j + 2) (SFdiv prec emax x y).
Proof.
  intros Hx Hy Hmin Hmax.
  destruct x as [sx | sx | | sx mx ex], y as [sy | sy | | sy my ey];
    cbn [below above] in Hx, Hy; try contradiction.
  - exact I.
  - destruct (div_finite_spec sx sy mx my ex ey) as (m & e & -> & Hm & He & Hmag & _).
    unfold SpecFloat.emin in *.
    apply of_mantissa_below; lia.
Qed.

(** *** A small term added to, or taken from, a large one *)

Lemma small_bit (a b k : Z) :
  0 < k -> 0 <= a < 2 ^ (k - 1) -> Z.testbit (a + b * 2 ^ k) (k - 1) = false.
Proof.
  intros Hk Ha.
  assert (Hp : 0 < 2 ^ (k - 1)) by (apply Z.pow_pos_nonneg; lia).
  rewrite Z.testbit_odd, Z.shiftr_div_pow2 by lia.
  replace (2 ^ k) with (2 * 2 ^ (k - 1)).
  2:{ rewrite <- Z.pow_succ_r by lia. f_equal; lia. }
  replace (a + b * (2 * 2 ^ (k - 1))) with (a + (2 * b) * 2 ^ (k - 1)) by lia.
  rewrite Z.div_add, Z.div_small by lia.
  rewrite Z.add_0_l, Z.odd_mul. reflexivity.
Qed.

Lemma add_absorb (mx my : positive) (ex ey : Z) :
  ex < ey -> Zdigits2 (Zpos my) = prec -> emin <= ey <= emax - prec ->
  Zpos mx < 2 ^ (ey - ex - 1) ->
  SFadd prec emax (S754_finite false mx ex) (S754_finite false my ey)
  = S754_finite false my ey.
Proof.
  intros Hlt Hd He Hsmall.
  cbn [SFadd cond_Zopp]; cbv zeta.
  pose proof (shl_align_spec mx ex (Z.min ex ey)) as [_ Ax].
  pose proof (shl_align_spec my ey (Z.min ex ey)) as [_ Ay].
  rewrite Ax, Ay.
  replace (Z.min ex (Z.min ex ey)) with ex by lia.
  replace (Z.min ey (Z.min ex ey)) with ex by lia.
  replace (Z.min ex ey) with ex by lia.
  rewrite Z.sub_diag, Z.pow_0_r, Z.mul_1_r.
  set (k := ey - ex).
  assert (Hk : 0 < k) by (unfold k; lia).
  assert (Hpk : 0 < 2 ^ k) by (apply Z.pow_pos_nonneg; lia).
  assert (Hpk' : 2 ^ (ey - ex - 1) * 2 = 2 ^ k).
  { rewrite Z.mul_comm, <- Z.pow_succ_r by lia. f_equal; unfold k; lia. }
  destruct (Z.pos mx + Z.pos my * 2 ^ k) as [ | p | p] eqn:Ep; try lia.
  cbn [binary_normalize].
  destruct (binary_round_as_aux false p ex) as (M & E & -> & HM & HE & HdM & HEf & HMp).
  pose proof (Zdigits2_bounds (Zpos my) ltac:(lia)) as [Ly Uy]. rewrite Hd in Ly, Uy.
  assert (HdV : Zdigits2 (Zpos p) = prec + k).
  { apply Z.le_antisymm.
    - apply Zdigits2_le; [ lia | ]. rewrite <- Ep. split; [ lia | ].
      rewrite Z.pow_add_r by lia. nia.
    - assert (2 ^ (prec - 1 + k) <= Zpos p).
      { rewrite <- Ep, Z.pow_add_r by lia. nia. }
      apply Zdigits2_ge in H; lia. }
  assert (Hfe : fexp (Zdigits2 M + E) = ey).
  { rewrite HdM, HdV. unfold SpecFloat.fexp, SpecFloat.emin in *. unfold k. lia. }
  destruct (binary_round_aux_steps false M E loc_Exact ltac:(lia)) as (m2 & -> & Hm2 & Hdown).
  rewrite Hfe in *.
  replace (Z.max E ey) with ey in * by lia.
  assert (HpE : 0 < 2 ^ (ex - E)) by (apply Z.pow_pos_nonneg; lia).
  assert (Hm1 : M / 2 ^ (ey - E) = Zpos my).
  { rewrite HMp, <- Ep.
    replace (ey - E) with (k + (ex - E)) by (unfold k; lia).
    rewrite Z.pow_add_r by lia.
    rewrite Z.div_mul_cancel_r by lia.
    rewrite Z.div_add, Z.div_small by lia. lia. }
  assert (Hbit : Z.testbit M (ey - E - 1) = false).
  { rewrite HMp, Z.mul_pow2_bits by lia.
    replace (ey - E - 1 - (ex - E)) with (k - 1) by (unfold k; lia).
    rewrite <- Ep. apply small_bit; [ lia | ].
    unfold k. lia. }
  rewrite (Hdown eq_refl ltac:(lia) Hbit), Hm1 in *.
  rewrite Hd.
  replace (Z.max ey (fexp (prec + ey))) with ey
    by (unfold SpecFloat.fexp, SpecFloat.emin in *; lia).
  rewrite Z.sub_diag, Z.pow_0_r, Z.div_1_r.
  cbn [of_mantissa].
  replace (ey <=? emax - prec) with true by (symmetry; apply Z.leb_le; lia).
  reflexivity.
Qed.

(** A mantissa that denotes less than a number of the format does not
    round above it. *)
Lemma round_aux_lt_below (s : bool) (M E : Z) (l : location) (m e : Z) :
  0 <= M -> 0 < m < 2 ^ prec -> emin <= e <= emax - prec -> E <= e ->
  M < m * 2 ^ (e - E) ->
  below (prec + e + 1) (binary_round_aux prec emax s M E l).
Proof.
  intros HM Hm He HE Hlt.
  destruct (binary_round_aux_steps s M E l HM) as (m2 & -> & Hm2 & _).
  set (e1 := Z.max E (fexp (Zdigits2 M + E))) in *.
  set (m1 := M / 2 ^ (e1 - E)) in *.
  set (e3 := Z.max e1 (fexp (Zdigits2 m2 + e1))).
  assert (Hp1 : 0 < 2 ^ (e1 - E)) by (apply Z.pow_pos_nonneg; lia).
  assert (H0m1 : 0 <= m1) by (apply Z.div_pos; lia).
  assert (Hp3 : 0 < 2 ^ (e3 - e1)) by (apply Z.pow_pos_nonneg; lia).
  assert (HpE : 0 < 2 ^ (e - E)) by (apply Z.pow_pos_nonneg; lia).
  assert (Hd1 : Zdigits2 m1 = Z.max (Zdigits2 M - (e1 - E)) 0).
  { apply Zdigits2_div_pow2; lia. }
  pose proof (Zdigits2_succ m1 m2 H0m1 Hm2) as Hd2.
  pose proof (Zdigits2_nonneg M HM) as HdM.
  assert (HdMe : Zdigits2 M + E <= prec + e).
  { assert (Zdigits2 M <= prec + (e - E)); [ | lia ].
    apply Zdigits2_le; [ lia | ]. split; [ lia | ].
    rewrite Z.pow_add_r by lia. nia. }
  assert (He1 : e1 <= e) by (unfold e1, SpecFloat.fexp, SpecFloat.emin in *; lia).
  assert (He3 : e3 <= e).
  { destruct (Z.eq_dec e1 e) as [Eq | Ne].
    - assert (m1 < m).
      { unfold m1. rewrite Eq. apply Z.div_lt_upper_bound; lia. }
      assert (Zdigits2 m2 <= prec) by (apply Zdigits2_le; lia).
      unfold e3, SpecFloat.fexp, SpecFloat.emin in *; lia.
    - unfold e3, e1, SpecFloat.fexp, SpecFloat.emin in *; lia. }
  apply of_mantissa_below.
  - apply Z.div_pos; lia.
  - lia.
  - rewrite Zdigits2_div_pow2 by lia.
    unfold e3, e1, SpecFloat.fexp, SpecFloat.emin in *; lia.
Qed.

Lemma sub_absorbed_below (mx my : positive) (ex ey : Z) :
  ex <= ey -> Zpos my < 2 ^ prec -> emin <= ey <= emax - prec ->
  Zpos mx < 2 ^ (ey - ex) ->
  below (prec + ey + 1)
    (SFsub prec emax (S754_finite false mx ex) (S754_finite false my ey)).
Proof.
  intros Hle Hd He Hsmall.
  cbn [SFsub cond_Zopp]; cbv zeta.
  pose proof (shl_align_spec mx ex (Z.min ex ey)) as [_ Ax].
  pose proof (shl_align_spec my ey (Z.min ex ey)) as [_ Ay].
  rewrite Ax, Ay.
  replace (Z.min ex (Z.min ex ey)) with ex by lia.
  replace (Z.min ey (Z.min ex ey)) with ex by lia.
  replace (Z.min ex ey) with ex by lia.
  rewrite Z.sub_diag, Z.pow_0_r, Z.mul_1_r.
  assert (Hpk : 0 < 2 ^ (ey - ex)) by (apply Z.pow_pos_nonneg; lia).
  destruct (Z.pos mx - Z.pos my * 2 ^ (ey - ex)) as [ | p | p] eqn:Ep; try nia.
  cbn [binary_normalize].
  destruct (binary_round_as_aux true p ex) as (M & E & -> & HM & HE & HdM & HEf & HMp).
  assert (HpE : 0 < 2 ^ (ex - E)) by (apply Z.pow_pos_nonneg; lia).
  apply round_aux_lt_below with (m := Zpos my); try lia.
  rewrite HMp.
  replace (ey - E) with (ey - ex + (ex - E)) by lia.
  rewrite Z.pow_add_r, Z.mul_assoc by lia.
  apply Z.mul_lt_mono_pos_r; lia.
Qed.

End Rounding.

(** ** Binary32: the numbers of the designer *)

Lemma valid_digits (s : bool) (m : positive) (e : Z) :
  valid binary32 (S754_finite s m e) = true ->
  Zdigits2 (Zpos m) <= 24 /\ -149 <= e <= 104
  /\ (-149 < e -> Zdigits2 (Zpos m) = 24).
Proof.
  unfold valid, valid_binary, bounded, canonical_mantissa; cbn [prec emax binary32].
  intro H. apply andb_true_iff in H. destruct H as [Hc Hb].
  apply Z.eqb_eq in Hc. apply Z.leb_le in Hb.
  change (Z.pos (digits2_pos m)) with (Zdigits2 (Zpos m)) in Hc.
  unfold fexp, emin in Hc. lia.
Qed.

(** A well-formed number between [-1.0f] and [1.0f] is below 2 in
    magnitude. *)
Lemma unit_below (x : float) :
  valid binary32 x = true -> SFleb f32_m1 x = true -> SFleb x f32_1 = true ->
  below 1 x.
Proof.
  intros Hv Hlo Hhi.
  destruct x as [s | s | | s m e]; cbn [below]; try exact I.
  - destruct s; [ discriminate Hlo | discriminate Hhi ].
  - discriminate Hlo.
  - destruct (valid_digits s m e Hv) as (Hd & _ & _).
    assert (e <= -23); [ | lia ].
    destruct s.
    + unfold SFleb, SFcompare in Hlo.
      destruct (Z.compare_spec (-23) e); try lia; try discriminate Hlo.
    + unfold SFleb, SFcompare in Hhi.
      destruct (Z.compare_spec e (-23)); try lia; try discriminate Hhi.
Qed.

(** A number that is not below [0.0f] in the order of C++ is a zero or
    has its sign bit clear. *)
Lemma nonneg_cases (x : float) :
  SFleb (S754_zero false) x = true ->
  (exists s, x = S754_zero s) \/ x = S754_infinity false
  \/ exists m e, x = S754_finite false m e.
Proof.
  destruct x as [s | [ | ] | | [ | ] m e]; cbn; try discriminate; intros _; eauto.
Qed.

Lemma pos_cases (x : float) :
  SFltb (S754_zero false) x = true ->
  x = S754_infinity false \/ exists m e, x = S754_finite false m e.
Proof.
  destruct x as [s | [ | ] | | [ | ] m e]; cbn; try discriminate; intros _; eauto.
Qed.

(** [alpha]: when [sinOmega] is in [[0, 1]], [q] is positive and the
    quotient is finite, it is a zero or a well-formed positive number. *)
Lemma alpha_cases (sinOmega q : float) :
  SFleb (S754_zero false) sinOmega = true ->
  SFltb (S754_zero false) q = true ->
  isfinite (SFdiv 24 128 sinOmega (SFmul 24 128 f32_2 q)) = true ->
  (exists s, SFdiv 24 128 sinOmega (SFmul 24 128 f32_2 q) = S754_zero s)
  \/ (exists m e, SFdiv 24 128 sinOmega (SFmul 24 128 f32_2 q) = S754_finite false m e
                  /\ valid binary32 (S754_finite false m e) = true).
Proof.
  intros HS Hq.
  assert (Ht : signed false (SFmul 24 128 f32_2 q)).
  { destruct (pos_cases q Hq) as [-> | (m & e & ->)]; [ reflexivity | ].
    cbn [SFmul xorb]. apply round_aux_signed; lia. }
  destruct (SFmul 24 128 f32_2 q) as [st | st | | st mt et]; cbn [signed] in Ht;
    try contradiction; subst st.
  - destruct (nonneg_cases sinOmega HS) as [(s & ->) | [-> | (m & e & ->)]];
      cbn; discriminate.
  - destruct (nonneg_cases sinOmega HS) as [(s & ->) | [-> | (m & e & ->)]];
      cbn; try discriminate; intros _; left; eauto.
  - destruct (nonneg_cases sinOmega HS) as [(s & ->) | [-> | (m & e & ->)]].
    + intros _; left; cbn; eauto.
    + cbn; discriminate.
    + destruct (div_finite_spec 24 128 ltac:(lia) false false m mt e et)
        as (m' & e' & E & Hm' & _ & _ & Hcan).
      rewrite E. intro Hfin.
      pose proof (of_mantissa_valid 24 128 false m' e' Hcan) as Hv.
      destruct m' as [ | p | p]; cbn [of_mantissa xorb] in *; try lia.
      * left; eauto.
      * destruct (e' <=? 128 - 24); [ | discriminate Hfin ].
        right; eauto.
Qed.

(** [a0 = 1 + alpha] is a positive number of magnitude [j >= 1], and
    [1 - alpha] is within 26 binades of it. *)
Lemma a0_and_a2_raw (alpha : float) :
  (exists s, alpha = S754_zero s)
  \/ (exists m e, alpha = S754_finite false m e
                  /\ valid binary32 (S754_finite false m e) = true) ->
  exists j, 1 <= j <= 129
    /\ above j (SFadd 24 128 f32_1 alpha)
    /\ below (j + 26) (SFsub 24 128 f32_1 alpha).
Proof.
  intros [(s & ->) | (m & e & -> & Hv)].
  - exists 1. cbn. lia.
  - destruct (valid_digits false m e Hv) as (Hd & He & Hn).
    pose proof (Zdigits2_pos (Zpos m) ltac:(lia)) as Hd1.
    destruct (Z_le_gt_dec e 1) as [Hsmall | Hbig].
    + assert (Hb1 : below 25 f32_1) by (cbn; lia).
      assert (Hba : below 25 (S754_finite false m e)) by (cbn [below]; lia).
      destruct (add_pos_above 24 128 ltac:(lia) ltac:(lia) 8388608 m (-23) e 25
                  Hb1 Hba ltac:(lia) ltac:(lia) ltac:(cbn; lia))
        as (m0 & e0 & E & Hlo & Hhi).
      exists 1. rewrite E. cbn [above].
      change (Zdigits2 8388608) with 24 in Hlo.
      split; [ lia | split; [ lia | ] ].
      apply (add_sub_below 24 128 ltac:(lia) ltac:(lia) 25 _ _ Hb1 Hba); cbn; lia.
    + assert (Hp : 2 ^ 23 < 2 ^ (e - -23 - 1)) by (apply Z.pow_lt_mono_r; lia).
      exists (24 + e). split; [ lia | split ].
      * rewrite (add_absorb 24 128 ltac:(lia));
          cbn [above]; unfold emin; lia.
      * apply below_le with (24 + e + 1); [ lia | ].
        apply (sub_absorbed_below 24 128 ltac:(lia)); unfold emin; try lia.
        -- pose proof (Zdigits2_bounds (Zpos m) ltac:(lia)) as [_ U].
           rewrite Hn in U by lia. exact U.
        -- apply Z.lt_trans with (2 ^ (e - -23 - 1)); [ exact Hp | ].
           apply Z.pow_lt_mono_r; lia.
Qed.

Lemma quotient_finite (k j : Z) (x a0 : float) :
  below k x -> above j a0 -> 1 <= j -> -140 <= k <= 100 ->
  isfinite (SFdiv 24 128 x a0) = true.
Proof.
  intros Hx Ha Hj Hk.
  apply below_isfinite with (k := (j + k) - j + 2).
  apply (div_below 24 128 ltac:(lia) ltac:(lia)); try assumption.
  - apply below_le with k; [ lia | exact Hx ].
  - unfold emin; lia.
  - lia.
Qed.

Lemma design_finite (sinOmega cosOmega q : float) :
  let alpha := SFdiv 24 128 sinOmega (SFmul 24 128 f32_2 q) in
  let a0 := SFadd 24 128 f32_1 alpha in
  valid binary32 cosOmega = true ->
  SFleb f32_m1 cosOmega = true -> SFleb cosOmega f32_1 = true ->
  SFleb (S754_zero false) sinOmega = true ->
  SFltb (S754_zero false) q = true ->
  isfinite alpha = true ->
  isfinite (SFdiv 24 128 (SFmul 24 128 (SFsub 24 128 f32_1 cosOmega) f32_0_5) a0) = true
  /\ isfinite (SFdiv 24 128 (SFsub 24 128 f32_1 cosOmega) a0) = true
  /\ isfinite (SFdiv 24 128 (SFmul 24 128 (SFopp f32_2) cosOmega) a0) = true
  /\ isfinite (SFdiv 24 128 (SFsub 24 128 f32_1 alpha) a0) = true.
Proof.
  intros alpha a0 HvC HloC HhiC HS Hq Hfin.
  pose proof (unit_below cosOmega HvC HloC HhiC) as HC.
  assert (H1 : below 1 f32_1) by (cbn; lia).
  assert (H05 : below 0 f32_0_5) by (cbn; lia).
  assert (H2 : below 2 (SFopp f32_2)) by (cbn; lia).
  assert (Hb1 : below 3 (SFsub 24 128 f32_1 cosOmega)).
  { apply (add_sub_below 24 128 ltac:(lia) ltac:(lia) 1 _ _ H1 HC); cbn; lia. }
  assert (Hb0 : below 4 (SFmul 24 128 (SFsub 24 128 f32_1 cosOmega) f32_0_5)).
  { apply (mul_below 24 128 ltac:(lia) ltac:(lia) 3 0 _ _ Hb1 H05); cbn; lia. }
  assert (Ha1 : below 4 (SFmul 24 128 (SFopp f32_2) cosOmega)).
  { apply (mul_below 24 128 ltac:(lia) ltac:(lia) 2 1 _ _ H2 HC); cbn; lia. }
  destruct (a0_and_a2_raw alpha (alpha_cases sinOmega q HS Hq Hfin)) as (j & Hj & Ha0 & Ha2).
  fold a0 in Ha0.
  repeat split.
  - apply quotient_finite with (k := 4) (j := j); try assumption; lia.
  - apply quotient_finite with (k := 3) (j := j); try assumption; lia.
  - apply quotient_finite with (k := 4) (j := j); try assumption; lia.
  - apply below_isfinite with (k := (j + 26) - j + 2).
    apply (div_below 24 128 ltac:(lia) ltac:(lia)); try assumption; unfold emin; lia.
Qed.

(** ** The designer calls libm at one angle

    Two libms that agree at the angle of a call give the same filter; the
    filter of the tests under a libm that is close to the reference at
    their angle is one of finitely many. *)

Lemma MakeLowPass_libm (L : Libm float) (cutoffHz sampleRateHz q : float) :
  let omega := (lit_2 * pi * (cutoffHz / sampleRateHz))%S in
  MakeLowPass (LF := L) cutoffHz sampleRateHz q
  = MakeLowPass (LF := constant_Libm (sinf omega) (cosf omega)) cutoffHz sampleRateHz q.
Proof. reflexivity. Qed.

Lemma test_filter_close (k : nat) (L : Libm float) :
  libm_close k L test_omega ->
  In (MakeLowPass (LF := L) lit_12 lit_200 lit_0_707) (test_filters k).
Proof.
  intros [Hs Hc].
  rewrite MakeLowPass_libm.
  unfold test_filters.
  change (lit_2 * pi * (lit_12 / lit_200))%S with test_omega.
  generalize (sinf test_omega) (cosf test_omega) Hs Hc.
  generalize (Reference.sin binary32 test_omega) (Reference.cos binary32 test_omega).
  intros rs rc s c Hs' Hc'.
  apply (in_map (fun sc => MakeLowPass (LF := constant_Libm (fst sc) (snd sc))
                             lit_12 lit_200 lit_0_707)
                _ (s, c)).
  apply in_prod; assumption.
Qed.

Lemma test_filters_all (k : nat) (P : BiquadFilter float -> bool) (L : Libm float) :
  forallb P (test_filters k) = true ->
  libm_close k L test_omega ->
  P (MakeLowPass (LF := L) lit_12 lit_200 lit_0_707) = true.
Proof.
  intros HP HL.
  rewrite forallb_forall in HP.
  apply HP, test_filter_close, HL.
Qed.

(** ** The values of libm at the angle of the tests

    An accurate libm returns, at the angle of the tests, one of the nine
    numbers of binary32 around each reference value. *)

Lemma to_R_finite (m : positive) (e : Z) :
  to_R (S754_finite false m e)
  = (IZR (Zpos m * 2 ^ Z.max e 0) / IZR (2 ^ Z.max (- e) 0))%R.
Proof.
  unfold to_R, to_Q, Q2R.
  destruct e as [ | p | p]; cbn [Qnum Qden Z.max Z.opp Z.compare].
  - change (2 ^ 0) with 1. rewrite Z.mul_1_r. reflexivity.
  - replace (Z.max (Z.pos p) 0) with (Zpos p) by lia.
    replace (Z.max (Z.neg p) 0) with 0 by lia.
    reflexivity.
  - replace (Z.max (Z.neg p) 0) with 0 by lia.
    replace (Z.max (Z.pos p) 0) with (Zpos p) by lia.
    change (2 ^ 0) with 1. rewrite Z.mul_1_r, Pos2Z.inj_pow. reflexivity.
Qed.

Lemma to_R_opp (m : positive) (e : Z) :
  to_R (S754_finite true m e) = (- to_R (S754_finite false m e))%R.
Proof. unfold to_R, to_Q. apply Q2R_opp. Qed.

Lemma to_R_finite_pos (m : positive) (e : Z) : (0 < to_R (S754_finite false m e))%R.
Proof.
  rewrite to_R_finite.
  assert (0 < 2 ^ Z.max e 0) by (apply Z.pow_pos_nonneg; lia).
  assert (0 < 2 ^ Z.max (- e) 0) by (apply Z.pow_pos_nonneg; lia).
  apply Rdiv_lt_0_compat; apply IZR_lt; lia.
Qed.

(** Fractions of integers with positive denominators, compared by cross
    multiplication. *)
Lemma cross_lt (a b c d : Z) :
  0 < b -> 0 < d -> (IZR a / IZR b < IZR c / IZR d)%R -> a * d < c * b.
Proof.
  intros Hb Hd H.
  apply lt_IZR. rewrite !mult_IZR.
  assert (Hb' : (0 < IZR b)%R) by (apply IZR_lt; exact Hb).
  assert (Hd' : (0 < IZR d)%R) by (apply IZR_lt; exact Hd).
  apply (Rmult_lt_compat_r (IZR b * IZR d)) in H; [ | apply Rmult_lt_0_compat; assumption ].
  replace (IZR a / IZR b * (IZR b * IZR d))%R with (IZR a * IZR d)%R in H by (field; lra).
  replace (IZR c / IZR d * (IZR b * IZR d))%R with (IZR c * IZR b)%R in H by (field; lra).
  exact H.
Qed.

(** A well-formed finite number of binary32 whose value is less than
    five units from [M * 2^-k], for [M] well inside a binade, has the
    exponent [-k] and a mantissa within 4 of [M]. *)
Lemma near_float (y : float) (M k : Z) :
  valid binary32 y = true -> isfinite y = true ->
  2 ^ 23 + 5 <= M <= 2 ^ 24 - 5 -> 0 < k < 149 ->
  (IZR (M - 5) / IZR (2 ^ k) < to_R y < IZR (M + 5) / IZR (2 ^ k))%R ->
  exists m, y = S754_finite false m (- k) /\ M - 4 <= Zpos m <= M + 4.
Proof.
  intros Hv Hf HM Hk [Hlo Hhi].
  assert (Hpk : 0 < 2 ^ k) by (apply Z.pow_pos_nonneg; lia).
  assert (Hpos : (0 < IZR (M - 5) / IZR (2 ^ k))%R).
  { apply Rdiv_lt_0_compat; apply IZR_lt; lia. }
  destruct y as [s | s | | s m e]; try discriminate Hf.
  - unfold to_R, to_Q, Q2R in Hlo; cbn in Hlo. lra.
  - destruct s.
    { rewrite to_R_opp in Hlo. pose proof (to_R_finite_pos m e). lra. }
    destruct (valid_digits false m e Hv) as (Hd & He & Hn).
    pose proof (Zdigits2_bounds (Zpos m) ltac:(lia)) as [Lm Um].
    assert (Um' : Zpos m < 2 ^ 24).
    { apply Z.lt_le_trans with (2 ^ Zdigits2 (Zpos m)); [ exact Um | ].
      apply Z.pow_le_mono_r; lia. }
    rewrite to_R_finite in Hlo, Hhi.
    assert (Hpa : 0 < 2 ^ Z.max (- e) 0) by (apply Z.pow_pos_nonneg; lia).
    assert (Hpb : 0 < 2 ^ Z.max e 0) by (apply Z.pow_pos_nonneg; lia).
    apply cross_lt in Hlo; [ | lia | lia ].
    apply cross_lt in Hhi; [ | lia | lia ].
    assert (He' : e = - k).
    { destruct (Z_lt_le_dec (- k) e) as [Hgt | Hle].
      - (* too large *)
        exfalso.
        assert (Hm23 : 2 ^ 23 <= Zpos m).
        { rewrite Hn in Lm by lia. exact Lm. }
        assert (E : 2 ^ Z.max e 0 * 2 ^ k = 2 ^ (e + k) * 2 ^ Z.max (- e) 0).
        { rewrite <- !Z.pow_add_r by lia. f_equal; lia. }
        assert (H2 : 2 <= 2 ^ (e + k)).
        { change 2 with (2 ^ 1) at 1. apply Z.pow_le_mono_r; lia. }
        assert (Zpos m * 2 ^ (e + k) < M + 5).
        { apply Z.mul_lt_mono_pos_r with (2 ^ Z.max (- e) 0); [ lia | ].
          rewrite <- Z.mul_assoc, <- E, Z.mul_assoc. exact Hhi. }
        nia.
      - destruct (Z.eq_dec e (- k)) as [Eq | Ne]; [ exact Eq | exfalso ].
        assert (E : 2 ^ Z.max (- e) 0 = 2 ^ (- e - k) * 2 ^ k).
        { rewrite <- Z.pow_add_r by lia. f_equal; lia. }
        replace (Z.max e 0) with 0 in * by lia.
        change (2 ^ 0) with 1 in *. rewrite Z.mul_1_r in *.
        assert (H2 : 2 <= 2 ^ (- e - k)).
        { change 2 with (2 ^ 1) at 1. apply Z.pow_le_mono_r; lia. }
        assert ((M - 5) * 2 ^ (- e - k) < Zpos m).
        { apply Z.mul_lt_mono_pos_r with (2 ^ k); [ lia | ].
          rewrite <- Z.mul_assoc, <- E. exact Hlo. }
        nia. }
    subst e. exists m. split; [ reflexivity | ].
    replace (Z.max (- k) 0) with 0 in * by lia.
    replace (Z.max (- - k) 0) with k in * by lia.
    change (2 ^ 0) with 1 in *. rewrite Z.mul_1_r in *.
    assert (M - 5 < Zpos m) by (apply Z.mul_lt_mono_pos_r with (2 ^ k); lia).
    assert (Zpos m < M + 5) by (apply Z.mul_lt_mono_pos_r with (2 ^ k); lia).
    lia.
Qed.

(** *** The sine and the cosine at the angle of the tests

    The partial sums of the two series enclose the functions; at the angle
    of the tests they put the sine and the cosine within half a unit in
    the last place of the reference values. *)

Local Open Scope R_scope.

Lemma fact_values :
  INR (fact 1) = 1 /\ INR (fact 3) = 6 /\ INR (fact 5) = 120 /\ INR (fact 7) = 5040
  /\ INR (fact 9) = 362880
  /\ INR (fact 0) = 1 /\ INR (fact 2) = 2 /\ INR (fact 4) = 24 /\ INR (fact 6) = 720
  /\ INR (fact 8) = 40320.
Proof.
  repeat split; rewrite INR_IZR_INZ; apply f_equal; vm_compute; reflexivity.
Qed.

Lemma sin_enclosure (a : R) :
  0 <= a -> a <= PI ->
  a - a ^ 3 / 6 + a ^ 5 / 120 - a ^ 7 / 5040 <= sin a
  <= a - a ^ 3 / 6 + a ^ 5 / 120 - a ^ 7 / 5040 + a ^ 9 / 362880.
Proof.
  intros H0 H1.
  pose proof (SIN a H0 H1) as H.
  unfold sin_lb, sin_ub, sin_approx in H. cbn [sum_f_R0] in H.
  unfold sin_term in H.
  change (2 * 0 + 1)%nat with 1%nat in H.
  change (2 * 1 + 1)%nat with 3%nat in H.
  change (2 * 2 + 1)%nat with 5%nat in H.
  change (2 * 3 + 1)%nat with 7%nat in H.
  change (2 * 4 + 1)%nat with 9%nat in H.
  destruct fact_values as (F1 & F3 & F5 & F7 & F9 & _).
  rewrite F1, F3, F5, F7, F9 in H.
  lra.
Qed.

Lemma cos_enclosure (a : R) :
  - PI / 2 <= a -> a <= PI / 2 ->
  1 - a ^ 2 / 2 + a ^ 4 / 24 - a ^ 6 / 720 <= cos a
  <= 1 - a ^ 2 / 2 + a ^ 4 / 24 - a ^ 6 / 720 + a ^ 8 / 40320.
Proof.
  intros H0 H1.
  pose proof (COS a H0 H1) as H.
  unfold cos_lb, cos_ub, cos_approx in H. cbn [sum_f_R0] in H.
  unfold cos_term in H.
  change (2 * 0)%nat with 0%nat in H.
  change (2 * 1)%nat with 2%nat in H.
  change (2 * 2)%nat with 4%nat in H.
  change (2 * 3)%nat with 6%nat in H.
  change (2 * 4)%nat with 8%nat in H.
  destruct fact_values as (_ & _ & _ & _ & _ & F0 & F2 & F4 & F6 & F8).
  rewrite F0, F2, F4, F6, F8 in H.
  lra.
Qed.

Lemma sin_cos_at_test_angle : let a := (12649723 / 33554432)%R in
  Rabs (sin a - 12352210 / 33554432) < / 2 * / 33554432
  /\ Rabs (cos a - 15599061 / 16777216) < / 2 * / 16777216.
Proof.
  intro a.
  assert (Ha0 : 0 <= a) by (unfold a; lra).
  pose proof PI2_3_2 as HPI.
  assert (Ha1 : a <= PI / 2) by (unfold a; lra).
  pose proof (sin_enclosure a Ha0 ltac:(lra)) as Hs.
  pose proof (cos_enclosure a ltac:(lra) Ha1) as Hc.
  unfold a in *.
  split; apply Rabs_def1; lra.
Qed.

Local Close Scope R_scope.

Lemma Rabs_le_between (x a : R) : (Rabs x <= a -> - a <= x <= a)%R.
Proof. unfold Rabs; destruct (Rcase_abs x); lra. Qed.

Lemma to_R_test_omega : to_R test_omega = (12649723 / 33554432)%R.
Proof.
  destruct test_omega_value as (-> & _).
  rewrite to_R_finite. reflexivity.
Qed.

Lemma around_4 (m : positive) (e : Z) (y : float) (M : Z) :
  around binary32 4 (S754_finite false (Z.to_pos M) e)
  = map (fun d => S754_finite false (Z.to_pos (M + d)) e) [-4; 4; -3; 3; -2; 2; -1; 1; 0] ->
  y = S754_finite false m e -> M - 4 <= Zpos m <= M + 4 ->
  In y (around binary32 4 (S754_finite false (Z.to_pos M) e)).
Proof.
  intros -> -> Hm.
  apply in_map_iff. exists (Zpos m - M). split.
  - f_equal. replace (M + (Z.pos m - M)) with (Zpos m) by lia. reflexivity.
  - assert (H : Zpos m - M = -4 \/ Zpos m - M = 4 \/ Zpos m - M = -3 \/ Zpos m - M = 3
               \/ Zpos m - M = -2 \/ Zpos m - M = 2 \/ Zpos m - M = -1
               \/ Zpos m - M = 1 \/ Zpos m - M = 0) by lia.
    cbn [In]. intuition auto.
Qed.

Lemma accurate_is_close (L : Libm float) :
  libm_accurate L test_omega -> libm_close 4 L test_omega.
Proof.
  intros [(Hvs & Hfs & Hs) (Hvc & Hfc & Hc)].
  rewrite to_R_test_omega in Hs, Hc.
  destruct sin_cos_at_test_angle as [Rs Rc]. cbv zeta in Rs, Rc.
  apply Rabs_def2 in Rs, Rc. destruct Rs as [Rs1 Rs2], Rc as [Rc1 Rc2].
  apply Rabs_le_between in Hs, Hc.
  unfold libm_close.
  destruct test_omega_value as (_ & -> & ->).
  split.
  - destruct (near_float (sinf test_omega) 12352210 25 Hvs Hfs ltac:(lia) ltac:(lia))
      as (m & E & Hm).
    { change (2 ^ 25) with 33554432. change (12352210 - 5) with 12352205.
      change (12352210 + 5) with 12352215. lra. }
    apply (around_4 m (-25) _ 12352210); [ vm_compute; reflexivity | exact E | exact Hm ].
  - destruct (near_float (cosf test_omega) 15599061 24 Hvc Hfc ltac:(lia) ltac:(lia))
      as (m & E & Hm).
    { change (2 ^ 24) with 16777216. change (15599061 - 5) with 15599056.
      change (15599061 + 5) with 15599066. lra. }
    apply (around_4 m (-24) _ 15599061); [ vm_compute; reflexivity | exact E | exact Hm ].
Qed.

Lemma reference_is_accurate : libm_accurate (reference_Libm binary32) test_omega.
Proof.
  unfold libm_accurate. cbn [sinf cosf reference_Libm].
  rewrite to_R_test_omega.
  destruct sin_cos_at_test_angle as [Rs Rc]. cbv zeta in Rs, Rc.
  destruct test_omega_value as (_ & -> & ->).
  rewrite !to_R_finite.
  change (IZR (12352210 * 2 ^ Z.max (-25) 0) / IZR (2 ^ Z.max (- -25) 0))%R
    with (12352210 / 33554432)%R.
  change (IZR (15599061 * 2 ^ Z.max (-24) 0) / IZR (2 ^ Z.max (- -24) 0))%R
    with (15599061 / 16777216)%R.
  rewrite Rabs_minus_sym in Rs, Rc.
  repeat split; try (vm_compute; reflexivity); apply Rlt_le; eapply Rlt_le_trans;
    try eassumption; lra.
Qed.

Lemma Qltb_lt (a b : Q) : Qltb a b = true -> (a < b)%Q.
Proof.
  unfold Qltb; intro H.
  apply Qnot_le_lt; intro Hle.
  apply Qle_bool_iff in Hle.
  rewrite Hle in H; discriminate H.
Qed.

(** ** Finite coefficients *)

(** C3, as stated, fails.  [12.0f], [200.0f] and [1e-40f] are finite, the
    cutoff is strictly between 0 and half the sample rate, the sample rate
    and the resonance are positive; with the reference libm [alpha]
    overflows to infinity and [a2] is stored as a NaN. *)
Lemma tiny_resonance_gives_nan :
  (isfinite lit_12 && isfinite lit_200 && isfinite lit_1e_40
   && valid binary32 lit_12 && valid binary32 lit_200 && valid binary32 lit_1e_40
   && flt lit_0 lit_12 && flt lit_12 (lit_200 / lit_2)%S
   && flt lit_0 lit_200 && flt lit_0 lit_1e_40 = true)
  /\ a2 (MakeLowPass (LF := reference_Libm binary32) lit_12 lit_200 lit_1e_40) = S754_nan
  /\ coefficients_finite
       (MakeLowPass (LF := reference_Libm binary32) lit_12 lit_200 lit_1e_40) = false.
Proof. repeat split; vm_compute; reflexivity. Qed.

Lemma finite_check_all : forallb coefficients_finite (test_filters 4) = true.
Proof. vm_compute. reflexivity. Qed.

(** [2 q] is a positive number, or infinite, and no smaller than [q]. *)
Lemma twice_above (m : positive) (e : Z) :
  valid binary32 (S754_finite false m e) = true -> -123 <= e ->
  SFmul 24 128 f32_2 (S754_finite false m e) = S754_infinity false
  \/ above (-98) (SFmul 24 128 f32_2 (S754_finite false m e)).
Proof.
  intros Hv He.
  destruct (valid_digits false m e Hv) as (Hd & _ & Hn).
  cbn [SFmul xorb].
  change (Z.pos (8388608 * m)) with (2 ^ 23 * Zpos m).
  assert (HdM : Zdigits2 (2 ^ 23 * Z.pos m) = 24 + 23).
  { rewrite Z.mul_comm, Zdigits2_mul_pow2, Hn by lia. reflexivity. }
  destruct (binary_round_aux_spec 24 128 ltac:(lia) false (2 ^ 23 * Zpos m) (-22 + e)
              loc_Exact ltac:(lia)) as (m' & e' & -> & _ & _ & _ & _ & Hlow).
  rewrite HdM in Hlow.
  destruct Hlow as [Hm' Hmag]; [ lia | unfold emin; lia | ].
  destruct m' as [ | p | p]; try lia.
  cbn [of_mantissa]. destruct (e' <=? 128 - 24); [ right | left; reflexivity ].
  cbn [above]. lia.
Qed.

(** [alpha] does not overflow when [sinOmega] is in [[0, 1]] and [q] is
    at least [2^-100]. *)
Lemma alpha_finite (sinOmega q : float) :
  valid binary32 sinOmega = true ->
  SFleb (S754_zero false) sinOmega = true -> SFleb sinOmega f32_1 = true ->
  valid binary32 q = true -> SFleb f32_2p_100 q = true ->
  isfinite (SFdiv 24 128 sinOmega (SFmul 24 128 f32_2 q)) = true.
Proof.
  intros HvS HS0 HS1 Hvq Hq.
  assert (HS : below 1 sinOmega).
  { apply unit_below; try assumption.
    destruct sinOmega as [s | [ | ] | | [ | ] m e]; try discriminate HS0; reflexivity. }
  assert (Hfin : isfinite sinOmega = true) by (apply below_isfinite with 1; exact HS).
  destruct q as [s | [ | ] | | [ | ] m e]; try discriminate Hq.
  - destruct sinOmega; try discriminate Hfin; reflexivity.
  - assert (He : -123 <= e).
    { unfold SFleb, SFcompare in Hq.
      destruct (Z.compare_spec (-123) e); try lia; discriminate Hq. }
    destruct (twice_above m e Hvq He) as [-> | Ht].
    + destruct sinOmega; try discriminate Hfin; reflexivity.
    + destruct (SFmul 24 128 f32_2 (S754_finite false m e)) as [ | | | st mt et] eqn:Et;
        cbn [above] in Ht; try contradiction.
      set (j := Zdigits2 (Zpos mt) + et) in *.
      destruct (Z_le_gt_dec j 129) as [Hj | Hj].
      * apply below_isfinite with (1 - j + 2).
        apply (div_below 24 128 ltac:(lia) ltac:(lia)); try assumption.
        -- cbn [above]. fold j. lia.
        -- unfold emin. lia.
        -- lia.
      * (* a product that lies above every number of the format *)
        apply below_isfinite with (1 - 130 + 2).
        apply (div_below 24 128 ltac:(lia) ltac:(lia)); try assumption.
        -- cbn [above]. fold j. lia.
        -- unfold emin. lia.
        -- lia.
Qed.

Lemma design_not_finite (alpha : float) :
  isfinite alpha = false ->
  isfinite (SFdiv 24 128 (SFsub 24 128 f32_1 alpha) (SFadd 24 128 f32_1 alpha)) = false.
Proof.
  destruct alpha as [s | [ | ] | | s m e]; try discriminate; intros _; reflexivity.
Qed.

Lemma single_lowpass_finite (sinf cosf : float -> float) (cutoffHz sampleRateHz q : float) :
  let omega :=
    SFmul 24 128 (SFmul 24 128 f32_2 (convert binary32 M_PI))
                 (SFdiv 24 128 cutoffHz sampleRateHz) in
  valid binary32 (cosf omega) = true ->
  SFleb f32_m1 (cosf omega) = true ->
  SFleb (cosf omega) f32_1 = true ->
  SFleb (S754_zero false) (sinf omega) = true ->
  SFltb (S754_zero false) q = true ->
  coefficients_finite (single_lowpass sinf cosf cutoffHz sampleRateHz q)
  = isfinite (SFdiv 24 128 (sinf omega) (SFmul 24 128 f32_2 q)).
Proof.
  intros omega HvC HloC HhiC HS Hq.
  unfold coefficients_finite, single_lowpass; cbn [b0 b1 b2 a1 a2]. fold omega.
  destruct (isfinite (SFdiv 24 128 (sinf omega) (SFmul 24 128 f32_2 q))) eqn:Hfin.
  - destruct (design_finite (sinf omega) (cosf omega) q HvC HloC HhiC HS Hq Hfin)
      as (H0 & H1 & H2 & H3).
    rewrite H0, H1, H2, H3. reflexivity.
  - rewrite (design_not_finite _ Hfin). apply andb_false_r.
Qed.

(** ** Rounding does not pass a number of the format *)

Section Nearest.

Variables prec emax : Z.
Hypothesis Hprec : 0 < prec.

Local Abbreviation fexp := (SpecFloat.fexp prec emax).
Local Abbreviation emin := (SpecFloat.emin prec emax).

(** The rounding bit left by the first shift is the last bit that went
    out, whatever the location the mantissa came with. *)
Lemma shr_fexp_round_bit (M E : Z) (l : location) :
  0 <= M ->
  let e1 := Z.max E (fexp (Zdigits2 M + E)) in
  exists mrs,
    shr_fexp prec emax M E l = (mrs, e1)
    /\ shr_m mrs = M / 2 ^ (e1 - E)
    /\ (E < e1 -> shr_r mrs = Z.testbit M (e1 - E - 1))
    /\ (E = e1 -> mrs = shr_record_of_loc M l).
Proof.
  intros HM e1. unfold shr_fexp, shr.
  destruct (fexp (Zdigits2 M + E) - E) as [ | p | p] eqn:En.
  - exists (shr_record_of_loc M l). replace e1 with E by lia.
    rewrite Z.sub_diag, Z.pow_0_r, Z.div_1_r, shr_m_of_loc.
    repeat split; try lia.
  - exists (iter_pos shr_1 p (shr_record_of_loc M l)).
    replace e1 with (E + Z.pos p) by lia. split; [ reflexivity | split; [ | split ] ].
    + rewrite iter_pos_nat, shr_m_iter, shr_m_of_loc by (rewrite shr_m_of_loc; exact HM).
      rewrite positive_nat_Z. f_equal; f_equal; lia.
    + intros _. rewrite iter_pos_nat.
      destruct (Pos.to_nat p) as [ | n] eqn:Ep; [ lia | ].
      assert (Hrec : exists r s, shr_record_of_loc M l
                                 = {| shr_m := M; shr_r := r; shr_s := s |}).
      { destruct l as [ | [ | | ]]; cbn; eauto. }
      destruct Hrec as (r & s & ->).
      rewrite shr_iter_spec by exact HM. cbn [shr_r].
      f_equal. lia.
    + lia.
  - exists (shr_record_of_loc M l). replace e1 with E by lia.
    rewrite Z.sub_diag, Z.pow_0_r, Z.div_1_r, shr_m_of_loc.
    repeat split; try lia.
Qed.

(** The steps of [binary_round_aux], with the cases in which the
    mantissa is rounded down. *)
Lemma binary_round_aux_down (s : bool) (M E : Z) (l : location) :
  0 <= M ->
  let e1 := Z.max E (fexp (Zdigits2 M + E)) in
  let m1 := M / 2 ^ (e1 - E) in
  exists m2,
    let e3 := Z.max e1 (fexp (Zdigits2 m2 + e1)) in
    let m3 := m2 / 2 ^ (e3 - e1) in
    binary_round_aux prec emax s M E l = of_mantissa prec emax s m3 e3
    /\ m1 <= m2 <= m1 + 1
    /\ (E < e1 -> Z.testbit M (e1 - E - 1) = false -> m2 = m1)
    /\ (E = e1 -> l = loc_Exact -> m2 = m1).
Proof.
  intros HM e1 m1. unfold binary_round_aux.
  destruct (shr_fexp_round_bit M E l HM) as (mrs1 & -> & Hm1 & Hr1 & Hl1).
  fold e1 in Hm1, Hr1, Hl1 |- *. fold m1 in Hm1.
  set (m2 := round_nearest_even (shr_m mrs1) (loc_of_shr_record mrs1)).
  assert (Hp1 : 0 < 2 ^ (e1 - E)) by (apply Z.pow_pos_nonneg; lia).
  assert (H0m1 : 0 <= m1) by (apply Z.div_pos; lia).
  pose proof (round_nearest_even_bounds (shr_m mrs1) (loc_of_shr_record mrs1)) as Hm2.
  fold m2 in Hm2. rewrite Hm1 in Hm2.
  assert (H0m2 : 0 <= m2) by lia.
  destruct (shr_fexp_spec prec emax m2 e1 loc_Exact H0m2) as (mrs3 & -> & Hm3 & _).
  exists m2. cbv zeta. rewrite <- Hm3.
  split; [ reflexivity | split; [ exact Hm2 | split ] ].
  - intros Hlt Hbit. unfold m2.
    rewrite round_nearest_even_down, Hm1; [ reflexivity | ].
    rewrite Hr1 by assumption. exact Hbit.
  - intros He Hl. unfold m2.
    rewrite round_nearest_even_down, Hm1; [ reflexivity | ].
    rewrite (Hl1 He), Hl. reflexivity.
Qed.

(** A mantissa whose value is below the middle of a number [mB * 2^eB]
    of the format, in the normal range, and the next one, or is that number
    and exact, is not rounded above it. *)
Lemma round_aux_le (s : bool) (M E : Z) (l : location) (mB eB : Z) :
  0 <= M -> 2 ^ (prec - 1) <= mB < 2 ^ prec -> emin <= eB -> E <= eB ->
  2 * M + 1 < (2 * mB + 1) * 2 ^ (eB - E)
  \/ (M = mB * 2 ^ (eB - E) /\ l = loc_Exact) ->
  exists m e,
    binary_round_aux prec emax s M E l = of_mantissa prec emax s m e
    /\ 0 <= m /\ e <= eB /\ m <= mB * 2 ^ (eB - e)
    /\ (E <= fexp (Zdigits2 M + E) -> 0 < m -> fexp (Zdigits2 m + e) = e).
Proof.
  intros HM HmB HeB HE Hle.
  destruct (binary_round_aux_down s M E l HM) as (m2 & Hr & Hm2 & Hbit & Hex).
  set (e1 := Z.max E (fexp (Zdigits2 M + E))) in *.
  set (m1 := M / 2 ^ (e1 - E)) in *.
  set (e3 := Z.max e1 (fexp (Zdigits2 m2 + e1))) in *.
  set (m3 := m2 / 2 ^ (e3 - e1)) in *.
  set (K := 2 ^ (eB - E)) in *.
  assert (HK : 0 < K) by (apply Z.pow_pos_nonneg; lia).
  assert (Hp1 : 0 < 2 ^ (e1 - E)) by (apply Z.pow_pos_nonneg; lia).
  assert (H0m1 : 0 <= m1) by (apply Z.div_pos; lia).
  assert (H0m2 : 0 <= m2) by lia.
  assert (Hp3 : 0 < 2 ^ (e3 - e1)) by (apply Z.pow_pos_nonneg; lia).
  assert (H0m3 : 0 <= m3) by (apply Z.div_pos; lia).
  assert (Hpp : 0 < 2 ^ (prec - 1)) by (apply Z.pow_pos_nonneg; lia).
  assert (Hpw : 2 ^ prec = 2 * 2 ^ (prec - 1)).
  { rewrite <- Z.pow_succ_r by lia. f_equal; lia. }
  assert (HMK : M < (mB + 1) * K) by (destruct Hle as [H | [H _]]; nia).
  assert (HdM : Zdigits2 M + E <= prec + eB).
  { assert (Zdigits2 M <= prec + (eB - E)); [ | lia ].
    apply Zdigits2_le; [ lia | ]. split; [ lia | ].
    rewrite Z.pow_add_r by lia. fold K. nia. }
  assert (Hd1 : Zdigits2 m1 = Z.max (Zdigits2 M - (e1 - E)) 0).
  { apply Zdigits2_div_pow2; lia. }
  assert (Hd3 : Zdigits2 m3 = Z.max (Zdigits2 m2 - (e3 - e1)) 0).
  { apply Zdigits2_div_pow2; lia. }
  pose proof (Zdigits2_succ m1 m2 H0m1 Hm2) as Hd2.
  pose proof (Zdigits2_nonneg M HM) as HdM0.
  pose proof (Zdigits2_zero_iff m3 H0m3) as Hz3.
  assert (He1 : e1 <= eB) by (unfold e1, SpecFloat.fexp, SpecFloat.emin in *; lia).
  assert (Hmin1 : E < e1 -> emin <= e1 /\ Zdigits2 m1 <= prec).
  { unfold e1, SpecFloat.fexp, SpecFloat.emin in *; lia. }
  exists m3, e3.
  split; [ exact Hr | split; [ exact H0m3 | ] ].
  assert (Hmain : e3 <= eB /\ m3 <= mB * 2 ^ (eB - e3)).
  { destruct (Z.eq_dec e1 eB) as [Eq | Ne].
    - (* the first shift reaches the exponent of the bound *)
      assert (Hm2B : m2 <= mB).
      { destruct (Z_lt_le_dec M (mB * K)) as [Hlt | Hge].
        - assert (m1 < mB); [ | lia ].
          unfold m1. rewrite Eq. fold K. apply Z.div_lt_upper_bound; lia.
        - assert (Hm1 : m1 = mB).
          { unfold m1. rewrite Eq. fold K.
            symmetry. apply Z.div_unique with (M - mB * K); lia. }
          destruct (Z.eq_dec E e1) as [EE | NE].
          + assert (HK1 : K = 1).
            { unfold K. rewrite <- Eq, <- EE, Z.sub_diag. reflexivity. }
            destruct Hle as [H | [_ Hl]]; [ nia | ].
            rewrite (Hex EE Hl). lia.
          + rewrite Hbit; [ lia | lia | ].
            rewrite Eq.
            assert (Hk : 0 < eB - E) by lia.
            assert (HKh : K = 2 * 2 ^ (eB - E - 1)).
            { unfold K. rewrite <- Z.pow_succ_r by lia. f_equal; lia. }
            assert (Hph : 0 < 2 ^ (eB - E - 1)) by (apply Z.pow_pos_nonneg; lia).
            replace M with ((M - mB * K) + mB * 2 ^ (eB - E)) by (unfold K; lia).
            apply small_bit; [ exact Hk | ].
            assert (HmK : mB * K = 2 * (mB * 2 ^ (eB - E - 1))) by (rewrite HKh; ring).
            clearbody K.
            destruct Hle as [H | [H _]]; clear - H Hge HKh Hph HmK; lia. }
      assert (Zdigits2 m2 <= prec) by (apply Zdigits2_le; lia).
      assert (He3 : e3 = e1) by (unfold e3, SpecFloat.fexp, SpecFloat.emin in *; lia).
      split; [ lia | ].
      unfold m3. rewrite He3, Z.sub_diag, Z.pow_0_r, Z.div_1_r.
      rewrite Eq, Z.sub_diag, Z.pow_0_r. lia.
    - (* the value is in a lower binade *)
      assert (He3 : e3 <= eB) by (unfold e3, e1, SpecFloat.fexp, SpecFloat.emin in *; lia).
      split; [ exact He3 | ].
      assert (Hm1p : m1 < 2 ^ prec).
      { destruct (Z.eq_dec m1 0) as [-> | Hne]; [ lia | ].
        pose proof (Zdigits2_bounds m1 ltac:(lia)) as [_ U].
        apply Z.lt_le_trans with (2 ^ Zdigits2 m1); [ exact U | ].
        apply Z.pow_le_mono_r; [ lia | ].
        unfold e1, SpecFloat.fexp, SpecFloat.emin in *; lia. }
      assert (HB1 : 2 ^ prec <= mB * 2 ^ (eB - e3) * 2 ^ (e3 - e1)).
      { rewrite <- Z.mul_assoc, <- Z.pow_add_r by lia.
        replace (eB - e3 + (e3 - e1)) with (Z.succ (eB - e1 - 1)) by lia.
        rewrite Z.pow_succ_r by lia.
        assert (1 <= 2 ^ (eB - e1 - 1)).
        { assert (0 < 2 ^ (eB - e1 - 1)) by (apply Z.pow_pos_nonneg; lia). lia. }
        clear - HmB Hpw Hpp H. nia. }
      pose proof (Z.mul_div_le m2 (2 ^ (e3 - e1)) Hp3) as Hdiv.
      fold m3 in Hdiv.
      assert (0 < 2 ^ (eB - e3)) by (apply Z.pow_pos_nonneg; lia).
      apply Z.mul_le_mono_pos_r with (2 ^ (e3 - e1)); [ exact Hp3 | ].
      clearbody m3 m1. clear - Hdiv HB1 Hm2 Hm1p. lia. }
  destruct Hmain as [He3 Hm3].
  split; [ exact He3 | split; [ exact Hm3 | ] ].
  intros HEf Hm3pos.
  assert (Zdigits2 m3 <> 0) by lia.
  clearbody m1 m3.
  unfold e3, e1, SpecFloat.fexp, SpecFloat.emin in *.
  lia.
Qed.

End Nearest.

(** ** The angle of the designer for a cutoff below half the sample rate *)

(** The location of a quotient without a remainder is exact. *)
Lemma div_core_exact (prec emax : Z) (m1 m2 : positive) (e1 e2 : Z) :
  let D := Zdigits2 (Zpos m1) + e1 - (Zdigits2 (Zpos m2) + e2) in
  let e' := Z.min (SpecFloat.fexp prec emax D) (e1 - e2) in
  let N := Zpos m1 * 2 ^ (e1 - e2 - e') in
  exists l,
    SFdiv_core_binary prec emax (Zpos m1) e1 (Zpos m2) e2 = (N / Zpos m2, e', l)
    /\ (N mod Zpos m2 = 0 -> l = loc_Exact).
Proof.
  intros D e' N. unfold SFdiv_core_binary.
  fold D. fold e'.
  assert (Hs : 0 <= e1 - e2 - e') by lia.
  assert (Hm : match e1 - e2 - e' with
               | 0 => Zpos m1
               | Zpos _ => Z.shiftl (Zpos m1) (e1 - e2 - e')
               | Zneg _ => 0
               end = N).
  { unfold N. destruct (e1 - e2 - e') as [ | p | p] eqn:Es; try lia.
    apply Z.shiftl_mul_pow2; lia. }
  rewrite Hm.
  unfold Z.div, Z.modulo.
  destruct (Z.div_eucl N (Zpos m2)) as [q r].
  exists (new_location (Zpos m2) r). split; [ reflexivity | ].
  intros ->. unfold new_location.
  destruct (Z.even (Zpos m2)); reflexivity.
Qed.

(** Two well-formed positive numbers [c < r / 2], as multiples of
    [2^-149]: their quotient is at most [1/2 - 2^-25], the number of
    binary32 just below one half. *)
Lemma ratio_below_half (mc mr : positive) (ec er : Z) :
  valid binary32 (S754_finite false mc ec) = true ->
  valid binary32 (S754_finite false mr er) = true ->
  2 * (Zpos mc * 2 ^ (ec + 149)) < Zpos mr * 2 ^ (er + 149) ->
  2 ^ 25 * (Zpos mc * 2 ^ (ec + 149)) <= (2 ^ 24 - 1) * (Zpos mr * 2 ^ (er + 149)).
Proof.
  intros Hvc Hvr Hlt.
  destruct (valid_digits false mc ec Hvc) as (Hdc & Hec & Hnc).
  destruct (valid_digits false mr er Hvr) as (Hdr & Her & Hnr).
  pose proof (Zdigits2_bounds (Zpos mc) ltac:(lia)) as [Lc Uc].
  pose proof (Zdigits2_bounds (Zpos mr) ltac:(lia)) as [Lr Ur].
  assert (Uc' : Zpos mc < 2 ^ 24).
  { apply Z.lt_le_trans with (2 ^ Zdigits2 (Zpos mc)); [ exact Uc | ].
    apply Z.pow_le_mono_r; lia. }
  assert (Ur' : Zpos mr < 2 ^ 24).
  { apply Z.lt_le_trans with (2 ^ Zdigits2 (Zpos mr)); [ exact Ur | ].
    apply Z.pow_le_mono_r; lia. }
  change (2 ^ 24) with 16777216 in *. change (2 ^ 25) with 33554432.
  destruct (Z_le_gt_dec er (ec + 1)) as [Hnear | Hfar].
  - (* both sides are multiples of the unit of [r] *)
    set (g := 2 ^ (er + 149)) in *.
    assert (Hg : 0 < g) by (apply Z.pow_pos_nonneg; lia).
    assert (Ec : 2 * 2 ^ (ec + 149) = 2 ^ (ec + 1 - er) * g).
    { unfold g. rewrite <- Z.pow_succ_r, <- Z.pow_add_r by lia. f_equal; lia. }
    set (k := 2 ^ (ec + 1 - er)) in *.
    assert (Hk : 0 < k) by (apply Z.pow_pos_nonneg; lia).
    assert (E2 : 2 * (Zpos mc * 2 ^ (ec + 149)) = (Zpos mc * k) * g) by lia.
    rewrite E2 in Hlt.
    assert (Hm : Zpos mc * k < Zpos mr).
    { apply Z.mul_lt_mono_pos_r with g; assumption. }
    assert (Hm' : Zpos mc * k <= Zpos mr - 1) by lia.
    replace (33554432 * (Zpos mc * 2 ^ (ec + 149)))
      with (16777216 * ((Zpos mc * k) * g)) by lia.
    apply Z.le_trans with (16777216 * ((Zpos mr - 1) * g)).
    + apply Z.mul_le_mono_nonneg_l; [ lia | ].
      apply Z.mul_le_mono_nonneg_r; lia.
    + clearbody g. clear - Ur' Hg. nia.
  - (* [r] is in the normal range and more than two binades above *)
    assert (Hr23 : 2 ^ 23 <= Zpos mr).
    { rewrite Hnr in Lr by lia. exact Lr. }
    change (2 ^ 23) with 8388608 in Hr23.
    set (g := 2 ^ (ec + 149)) in *.
    assert (Hg : 0 < g) by (apply Z.pow_pos_nonneg; lia).
    assert (Er : 4 * g <= 2 ^ (er + 149)).
    { unfold g. change 4 with (2 ^ 2). rewrite <- Z.pow_add_r by lia.
      apply Z.pow_le_mono_r; lia. }
    set (h := 2 ^ (er + 149)) in *.
    clearbody g h. clear - Uc' Hr23 Hg Er. nia.
Qed.

(** The quotient of the designer, [cutoffHz / sampleRateHz], for two
    well-formed positive numbers with [cutoffHz < sampleRateHz / 2]: a zero
    or a positive number that is at most [1/2 - 2^-25]. *)
Lemma quotient_below_half (mc mr : positive) (ec er : Z) :
  valid binary32 (S754_finite false mc ec) = true ->
  valid binary32 (S754_finite false mr er) = true ->
  2 * (Zpos mc * 2 ^ (ec + 149)) < Zpos mr * 2 ^ (er + 149) ->
  exists m e,
    SFdiv 24 128 (S754_finite false mc ec) (S754_finite false mr er)
    = of_mantissa 24 128 false m e
    /\ 0 <= m /\ e <= -25 /\ m <= (2 ^ 24 - 1) * 2 ^ (-25 - e)
    /\ (0 < m -> fexp 24 128 (Zdigits2 m + e) = e).
Proof.
  intros Hvc Hvr Hlt.
  pose proof (ratio_below_half mc mr ec er Hvc Hvr Hlt) as Hratio.
  destruct (valid_digits false mc ec Hvc) as (Hdc & Hec & Hnc).
  destruct (valid_digits false mr er Hvr) as (Hdr & Her & Hnr).
  pose proof (Zdigits2_bounds (Zpos mc) ltac:(lia)) as [Lc Uc].
  pose proof (Zdigits2_bounds (Zpos mr) ltac:(lia)) as [Lr Ur].
  pose proof (Zdigits2_pos (Zpos mc) ltac:(lia)) as Hdc1.
  pose proof (Zdigits2_pos (Zpos mr) ltac:(lia)) as Hdr1.
  set (D := Zdigits2 (Zpos mc) + ec - (Zdigits2 (Zpos mr) + er)).
  assert (HD : D <= -1).
  { assert (Zdigits2 (Zpos mc) + (ec + 149) < Zdigits2 (Zpos mr) + (er + 149)); [ | lia ].
    apply (Z.pow_lt_mono_r_iff 2); [ lia | lia | ].
    rewrite (Z.pow_add_r 2 (Zdigits2 (Zpos mc))), (Z.pow_add_r 2 (Zdigits2 (Zpos mr))) by lia.
    assert (0 < 2 ^ (ec + 149)) by (apply Z.pow_pos_nonneg; lia).
    assert (0 < 2 ^ (er + 149)) by (apply Z.pow_pos_nonneg; lia).
    assert (Hc2 : 2 ^ Zdigits2 (Zpos mc) = 2 * 2 ^ (Zdigits2 (Zpos mc) - 1)).
    { rewrite <- Z.pow_succ_r by lia. f_equal; lia. }
    rewrite Hc2.
    apply Z.le_lt_trans with (2 * (Zpos mc * 2 ^ (ec + 149))).
    - rewrite <- Z.mul_assoc. apply Z.mul_le_mono_nonneg_l; [ lia | ].
      apply Z.mul_le_mono_nonneg_r; lia.
    - apply Z.lt_trans with (Zpos mr * 2 ^ (er + 149)); [ exact Hlt | ].
      apply Z.mul_lt_mono_pos_r; [ lia | exact Ur ]. }
  cbn [SFdiv xorb].
  destruct (div_core_exact 24 128 mc mr ec er) as (l & -> & Hexact). fold D in Hexact |- *.
  set (e' := Z.min (fexp 24 128 D) (ec - er)) in *.
  set (N := Zpos mc * 2 ^ (ec - er - e')) in *.
  assert (He' : e' <= -25) by (unfold e', fexp, emin; lia).
  assert (Hs : 0 <= ec - er - e') by (unfold e'; lia).
  assert (Hp : 0 < 2 ^ (ec - er - e')) by (apply Z.pow_pos_nonneg; lia).
  assert (HN : 0 < N) by (unfold N; lia).
  assert (Hq : 0 <= N / Zpos mr) by (apply Z.div_pos; lia).
  set (K := 2 ^ (-25 - e')).
  assert (HK : 0 < K) by (apply Z.pow_pos_nonneg; lia).
  assert (HNK : N <= (2 ^ 24 - 1) * K * Zpos mr).
  { apply Z.mul_le_mono_pos_r with (2 ^ (er + 149)); [ apply Z.pow_pos_nonneg; lia | ].
    unfold N, K.
    replace (Zpos mc * 2 ^ (ec - er - e') * 2 ^ (er + 149))
      with (2 ^ (-25 - e') * (2 ^ 25 * (Zpos mc * 2 ^ (ec + 149)))).
    2:{ rewrite <- !Z.mul_assoc, (Z.mul_comm (2 ^ 25)), <- !Z.mul_assoc.
        rewrite (Z.mul_assoc (2 ^ (-25 - e'))), (Z.mul_comm (2 ^ (-25 - e'))).
        rewrite <- !Z.mul_assoc. f_equal.
        rewrite <- !Z.pow_add_r by lia. f_equal; lia. }
    replace ((2 ^ 24 - 1) * 2 ^ (-25 - e') * Zpos mr * 2 ^ (er + 149))
      with (2 ^ (-25 - e') * ((2 ^ 24 - 1) * (Zpos mr * 2 ^ (er + 149)))) by ring.
    apply Z.mul_le_mono_nonneg_l; [ lia | exact Hratio ]. }
  assert (Hq0 : N / Zpos mr <= (2 ^ 24 - 1) * K).
  { apply Z.div_le_upper_bound; lia. }
  destruct (round_aux_le 24 128 ltac:(lia) false (N / Zpos mr) e' l (2 ^ 24 - 1) (-25))
    as (m & e & E & Hm & He & Hmle & Hcan).
  - exact Hq.
  - change (2 ^ (24 - 1)) with 8388608. change (2 ^ 24) with 16777216. lia.
  - unfold emin. lia.
  - exact He'.
  - fold K.
    destruct (Z_lt_le_dec (N / Zpos mr) ((2 ^ 24 - 1) * K)) as [Hlo | Hhi].
    + left. lia.
    + right. assert (Eq : N / Zpos mr = (2 ^ 24 - 1) * K) by lia.
      split; [ exact Eq | ].
      apply Hexact.
      pose proof (Z.div_mod N (Zpos mr) ltac:(lia)) as Hdm.
      pose proof (Z.mod_pos_bound N (Zpos mr) ltac:(lia)) as Hmb.
      rewrite Eq in Hdm. lia.
  - exists m, e.
    split; [ exact E | split; [ exact Hm | split; [ exact He | split; [ exact Hmle | ] ] ] ].
    apply Hcan.
    (* the quotient has at least the digits of the format *)
    assert (HdN : Zdigits2 N = Zdigits2 (Zpos mc) + (ec - er - e')).
    { apply Zdigits2_mul_pow2; lia. }
    destruct (div_digits N (Zpos mr) HN ltac:(lia)) as [Hup Hlow].
    unfold e', fexp, emin in *. lia.
Qed.

(** [2.0f * (float)M_PI] times such a quotient: a zero or a positive
    number that is at most [13176794 * 2^-22], the number of binary32 just
    below [(float)M_PI]. *)
Lemma angle_below_pi (m : positive) (e : Z) :
  valid binary32 (S754_finite false m e) = true ->
  e <= -25 -> Zpos m <= (2 ^ 24 - 1) * 2 ^ (-25 - e) ->
  exists m' e',
    SFmul 24 128 (S754_finite false 13176795 (-21)) (S754_finite false m e)
    = of_mantissa 24 128 false m' e'
    /\ 0 <= m' /\ e' <= -22 /\ m' <= 13176794 * 2 ^ (-22 - e')
    /\ (0 < m' -> fexp 24 128 (Zdigits2 m' + e') = e').
Proof.
  intros Hv He Hm.
  destruct (valid_digits false m e Hv) as (Hd & Hev & Hn).
  pose proof (Zdigits2_pos (Zpos m) ltac:(lia)) as Hd1.
  cbn [SFmul xorb].
  change (Z.pos (13176795 * m)) with (13176795 * Zpos m).
  set (J := 2 ^ (-25 - e)) in *.
  assert (HJ : 0 < J) by (apply Z.pow_pos_nonneg; lia).
  assert (EK : 2 ^ (-22 - (-21 + e)) = 2 ^ 24 * J).
  { unfold J. rewrite <- Z.pow_add_r by lia. f_equal; lia. }
  destruct (round_aux_le 24 128 ltac:(lia) false (13176795 * Zpos m) (-21 + e) loc_Exact
              13176794 (-22)) as (m' & e' & E & Hm' & He' & Hmle & Hcan).
  - lia.
  - change (2 ^ (24 - 1)) with 8388608. change (2 ^ 24) with 16777216. lia.
  - unfold emin. lia.
  - lia.
  - left. rewrite EK. change (2 ^ 24) with 16777216 in *.
    clearbody J. clear - Hm HJ. lia.
  - exists m', e'.
    split; [ exact E | split; [ exact Hm' | split; [ exact He' | split; [ exact Hmle | ] ] ] ].
    apply Hcan.
    pose proof (Zdigits2_mul 13176795 (Zpos m) ltac:(lia) ltac:(lia)) as [Hlo _].
    change (Zdigits2 13176795) with 24 in Hlo.
    unfold fexp, emin. lia.
Qed.

(** The value of a positive number of binary32, in units of [2^-149]. *)
Lemma to_R_scaled (m : positive) (e : Z) :
  -149 <= e ->
  to_R (S754_finite false m e) = (IZR (Zpos m * 2 ^ (e + 149)) / IZR (2 ^ 149))%R.
Proof.
  intro He. rewrite to_R_finite.
  assert (Ha : 0 < 2 ^ Z.max e 0) by (apply Z.pow_pos_nonneg; lia).
  assert (Hb : 0 < 2 ^ Z.max (- e) 0) by (apply Z.pow_pos_nonneg; lia).
  assert (Hc : 0 < 2 ^ 149) by (apply Z.pow_pos_nonneg; lia).
  assert (E : Zpos m * 2 ^ Z.max e 0 * 2 ^ 149
              = Zpos m * 2 ^ (e + 149) * 2 ^ Z.max (- e) 0).
  { rewrite <- !Z.mul_assoc, <- !Z.pow_add_r by lia. do 2 f_equal. lia. }
  apply (f_equal IZR) in E. rewrite (mult_IZR _ (2 ^ 149)) in E.
  rewrite (mult_IZR _ (2 ^ Z.max (- e) 0)) in E.
  apply IZR_lt in Hb, Hc.
  set (a := IZR (Zpos m * 2 ^ Z.max e 0)) in *.
  set (b := IZR (2 ^ Z.max (- e) 0)) in *.
  set (c := IZR (Zpos m * 2 ^ (e + 149))) in *.
  set (d := IZR (2 ^ 149)) in *.
  apply (Rmult_eq_reg_r (b * d)).
  2:{ apply Rgt_not_eq, Rmult_lt_0_compat; assumption. }
  replace (a / b * (b * d))%R with (a * d)%R by (field; lra).
  replace (c / d * (b * d))%R with (c * b)%R by (field; lra).
  exact E.
Qed.

Lemma positive_finite (x : float) :
  isfinite x = true -> (0 < to_R x)%R -> exists m e, x = S754_finite false m e.
Proof.
  intros Hf Hpos.
  destruct x as [s | s | | s m e]; try discriminate Hf.
  - unfold to_R, to_Q, Q2R in Hpos; cbn in Hpos. lra.
  - destruct s; [ | eauto ].
    rewrite to_R_opp in Hpos. pose proof (to_R_finite_pos m e). lra.
Qed.

(** [(float)M_PI] is the number of binary32 just above the number pi,
    and [lit_below_pi] the one just below. *)
Lemma PI_between : (13176794 / 4194304 < PI < 13176795 / 4194304)%R.
Proof.
  split.
  - pose proof (PI_2_3_7_ineq 3) as [H _].
    unfold sum_f_R0, tg_alt, PI_2_3_7_tg, Ratan_seq in H.
    cbn [Nat.mul Nat.add] in H.
    cbn [Rpow_def.pow] in H.
    rewrite !INR_IZR_INZ in H.
    cbn [Z.of_nat Pos.of_succ_nat Pos.succ] in H.
    lra.
  - pose proof (PI_2_3_7_ineq 3) as [_ H].
    unfold sum_f_R0, tg_alt, PI_2_3_7_tg, Ratan_seq in H.
    cbn [Nat.mul Nat.add] in H.
    cbn [Rpow_def.pow] in H.
    rewrite !INR_IZR_INZ in H.
    cbn [Z.of_nat Pos.of_succ_nat Pos.succ] in H.
    lra.
Qed.

(** The angle of the designer, [2.0f * (float)M_PI * (cutoffHz / sampleRateHz)],
    for a cutoff between zero and half the sample rate: a well-formed
    finite number in [[0, 13176794 * 2^-22]], below pi. *)
Lemma angle_in_range (cutoffHz sampleRateHz : float) :
  valid binary32 cutoffHz = true -> isfinite cutoffHz = true ->
  valid binary32 sampleRateHz = true -> isfinite sampleRateHz = true ->
  (0 < to_R cutoffHz < to_R sampleRateHz / 2)%R ->
  let omega := (lit_2 * pi * (cutoffHz / sampleRateHz))%S in
  valid binary32 omega = true /\ isfinite omega = true
  /\ (0 <= to_R omega <= 13176794 / 4194304)%R.
Proof.
  intros Hvc Hfc Hvr Hfr [Hpos Hhalf] omega.
  destruct (positive_finite cutoffHz Hfc Hpos) as (mc & ec & ->).
  assert (Hposr : (0 < to_R sampleRateHz)%R) by lra.
  destruct (positive_finite sampleRateHz Hfr Hposr) as (mr & er & ->).
  destruct (valid_digits false mc ec Hvc) as (_ & Hec & _).
  destruct (valid_digits false mr er Hvr) as (_ & Her & _).
  assert (Hlt : 2 * (Zpos mc * 2 ^ (ec + 149)) < Zpos mr * 2 ^ (er + 149)).
  { rewrite !to_R_scaled in Hhalf by lia.
    assert (Hc : (0 < IZR (2 ^ 149))%R) by (apply IZR_lt, Z.pow_pos_nonneg; lia).
    apply lt_IZR. rewrite mult_IZR.
    set (a := IZR (Zpos mc * 2 ^ (ec + 149))) in *.
    set (b := IZR (Zpos mr * 2 ^ (er + 149))) in *.
    set (d := IZR (2 ^ 149)) in *.
    apply (Rmult_lt_compat_r (d * 2)) in Hhalf; [ | lra ].
    replace (a / d * (d * 2))%R with (2 * a)%R in Hhalf by (field; lra).
    replace (b / d / 2 * (d * 2))%R with b in Hhalf by (field; lra).
    exact Hhalf. }
  destruct (quotient_below_half mc mr ec er Hvc Hvr Hlt)
    as (m & e & Eq & Hm & He & Hmle & Hcan).
  unfold omega.
  change (@mul float float_Arith) with (SFmul 24 128).
  change (@div float float_Arith) with (SFdiv 24 128).
  change (SFmul 24 128 lit_2 pi) with (S754_finite false 13176795 (-21)).
  rewrite Eq.
  destruct m as [ | p | p]; try lia; cbn [of_mantissa].
  - repeat split; try reflexivity; unfold to_R, to_Q, Q2R; cbn; lra.
  - replace (e <=? 128 - 24) with true by (symmetry; apply Z.leb_le; lia).
    assert (Hvt : valid binary32 (S754_finite false p e) = true).
    { pose proof (of_mantissa_valid 24 128 false (Zpos p) e Hcan) as Hv.
      cbn [of_mantissa] in Hv.
      replace (e <=? 128 - 24) with true in Hv by (symmetry; apply Z.leb_le; lia).
      exact Hv. }
    destruct (angle_below_pi p e Hvt He Hmle) as (m' & e' & Eo & Hm' & He' & Hmle' & Hcan').
    rewrite Eo.
    pose proof (of_mantissa_valid 24 128 false m' e' Hcan') as Hvo.
    destruct m' as [ | p' | p']; try lia; cbn [of_mantissa] in *.
    + repeat split; try reflexivity; unfold to_R, to_Q, Q2R; cbn; lra.
    + replace (e' <=? 128 - 24) with true in * by (symmetry; apply Z.leb_le; lia).
      split; [ exact Hvo | split; [ reflexivity | ] ].
      destruct (valid_digits false p' e' Hvo) as (_ & Heo & _).
      split; [ apply Rlt_le, to_R_finite_pos | ].
      rewrite to_R_scaled by lia.
      assert (Hc : 0 < 2 ^ 149) by (apply Z.pow_pos_nonneg; lia).
      assert (Hle : Zpos p' * 2 ^ (e' + 149) * 4194304 <= 13176794 * 2 ^ 149).
      { assert (E127 : 2 ^ 149 = 2 ^ (-22 - e') * 2 ^ (e' + 149) * 4194304).
        { change 4194304 with (2 ^ 22). rewrite <- !Z.pow_add_r by lia. f_equal; lia. }
        assert (0 < 2 ^ (e' + 149)) by (apply Z.pow_pos_nonneg; lia).
        rewrite E127.
        replace (13176794 * (2 ^ (-22 - e') * 2 ^ (e' + 149) * 4194304))
          with (13176794 * 2 ^ (-22 - e') * 2 ^ (e' + 149) * 4194304) by ring.
        apply Z.mul_le_mono_nonneg_r; [ lia | ].
        apply Z.mul_le_mono_nonneg_r; lia. }
      apply IZR_le in Hle.
      rewrite (mult_IZR _ 4194304), (mult_IZR 13176794) in Hle.
      apply IZR_lt in Hc.
      set (a := IZR (Zpos p' * 2 ^ (e' + 149))) in *.
      set (d := IZR (2 ^ 149)) in *.
      apply (Rmult_le_reg_r (d * 4194304)); [ lra | ].
      replace (a / d * (d * 4194304))%R with (a * 4194304)%R by (field; lra).
      replace (13176794 / 4194304 * (d * 4194304))%R with (13176794 * d)%R by (field; lra).
      exact Hle.
Qed.

(** At half the sample rate the bound is passed: the angle of
    [MakeLowPass(100.0f, 200.0f, q)] is [(float)M_PI], which is above
    pi. *)
Lemma angle_at_half_the_rate :
  (lit_2 * pi * (literal binary32 100 1 / lit_200))%S = (pi : float)
  /\ (PI < to_R (pi : float))%R.
Proof.
  split; [ vm_compute; reflexivity | ].
  rewrite float_pi_value, to_R_finite.
  change (IZR (13176795 * 2 ^ Z.max (-22) 0) / IZR (2 ^ Z.max (- -22) 0))%R
    with (13176795 / 4194304)%R.
  apply PI_between.
Qed.

(** ** A libm that is in range on [[0, pi)] *)

Lemma not_flt_fle (x y : float) :
  x <> S754_nan -> y <> S754_nan -> flt x y = false -> fle y x = true.
Proof.
  unfold flt, fle, SFltb, SFleb.
  destruct x as [sx | sx | | sx mx ex], y as [sy | sy | | sy my ey];
    try congruence; intros _ _; cbn [SFcompare];
    try (destruct sx; try destruct sy; congruence).
  change (Pos.compare_cont Eq mx my) with (Pos.compare mx my).
  change (Pos.compare_cont Eq my mx) with (Pos.compare my mx).
  destruct sx, sy; try congruence;
    destruct (Z.compare_spec ex ey), (Z.compare_spec ey ex); try lia; try congruence;
    destruct (Pos.compare_spec mx my), (Pos.compare_spec my mx); try lia;
    cbn [CompOpp]; congruence.
Qed.

Lemma of_Q_valid (q : Q) :
  valid binary32 (of_Q binary32 q) = true /\ of_Q binary32 q <> S754_nan.
Proof.
  unfold of_Q. destruct (Qnum q) as [ | n | n].
  - split; [ reflexivity | discriminate ].
  - unfold fdiv; cbn [prec emax binary32].
    destruct (div_finite_spec 24 128 ltac:(lia) false false n (Qden q) 0 0)
      as (m & e & -> & Hm & _ & _ & Hcan).
    split; [ apply (of_mantissa_valid 24 128), Hcan | ].
    destruct m as [ | p | p]; cbn [of_mantissa]; try lia; try discriminate.
    destruct (e <=? 128 - 24); discriminate.
  - unfold fdiv; cbn [prec emax binary32].
    destruct (div_finite_spec 24 128 ltac:(lia) true false n (Qden q) 0 0)
      as (m & e & -> & Hm & _ & _ & Hcan).
    split; [ apply (of_mantissa_valid 24 128), Hcan | ].
    destruct m as [ | p | p]; cbn [of_mantissa]; try lia; try discriminate.
    destruct (e <=? 128 - 24); discriminate.
Qed.

Lemma clamp_range (lo hi y : float) :
  valid binary32 lo = true -> valid binary32 hi = true ->
  lo <> S754_nan -> hi <> S754_nan ->
  fle lo lo = true -> fle lo hi = true -> fle hi hi = true ->
  valid binary32 y = true -> y <> S754_nan ->
  valid binary32 (clamp lo hi y) = true
  /\ fle lo (clamp lo hi y) = true /\ fle (clamp lo hi y) hi = true.
Proof.
  intros Hvl Hvh Hnl Hnh Hll Hlh Hhh Hvy Hny. unfold clamp.
  destruct (flt y lo) eqn:E1; [ auto | ].
  destruct (flt hi y) eqn:E2; [ auto | ].
  split; [ exact Hvy | split ]; apply not_flt_fle; assumption.
Qed.

Lemma reference_valid (x : float) :
  valid binary32 x = true -> isfinite x = true ->
  (valid binary32 (Reference.sin binary32 x) = true
   /\ Reference.sin binary32 x <> S754_nan)
  /\ (valid binary32 (Reference.cos binary32 x) = true
      /\ Reference.cos binary32 x <> S754_nan).
Proof.
  intros Hv Hf.
  destruct x as [s | s | | s m e]; try discriminate Hf; cbn [Reference.sin Reference.cos].
  - split; split; try discriminate; try reflexivity.
  - split; apply of_Q_valid.
Qed.

Lemma clamped_in_range : libm_in_range clamped_Libm.
Proof.
  intros x Hv Hf _. cbn [sinf cosf clamped_Libm].
  destruct (reference_valid x Hv Hf) as [[Hvs Hns] [Hvc Hnc]].
  split.
  - apply clamp_range; try assumption; try reflexivity; discriminate.
  - apply clamp_range; try assumption; try reflexivity; discriminate.
Qed.

Lemma libm_accurate_at (L L' : Libm float) (x : float) :
  sinf (Libm := L) x = sinf (Libm := L') x ->
  cosf (Libm := L) x = cosf (Libm := L') x ->
  libm_accurate L' x -> libm_accurate L x.
Proof. unfold libm_accurate. intros -> ->. exact (fun H => H). Qed.

Lemma clamped_is_accurate : libm_accurate clamped_Libm test_omega.
Proof.
  apply (libm_accurate_at clamped_Libm (reference_Libm binary32)).
  - vm_compute. reflexivity.
  - vm_compute. reflexivity.
  - exact reference_is_accurate.
Qed.

(** ** The coefficients are finite *)

Lemma in_range_design (L : Libm float) (cutoffHz sampleRateHz q : float) :
  libm_in_range L ->
  valid binary32 cutoffHz = true -> isfinite cutoffHz = true ->
  valid binary32 sampleRateHz = true -> isfinite sampleRateHz = true ->
  (0 < to_R cutoffHz < to_R sampleRateHz / 2)%R ->
  let omega := (lit_2 * pi * (cutoffHz / sampleRateHz))%S in
  let alpha := (sinf omega / (lit_2 * q))%S in
  (flt lit_0 q = true ->
   coefficients_finite (MakeLowPass cutoffHz sampleRateHz q) = isfinite alpha)
  /\ (valid binary32 q = true -> fle lit_0x1p_100 q = true ->
      coefficients_finite (MakeLowPass cutoffHz sampleRateHz q) = true).
Proof.
  intros HL Hvc Hfc Hvr Hfr Hrange omega alpha.
  destruct (angle_in_range cutoffHz sampleRateHz Hvc Hfc Hvr Hfr Hrange)
    as (Hvo & Hfo & Ho0 & Ho1).
  fold omega in Hvo, Hfo, Ho0, Ho1.
  destruct (HL omega Hvo Hfo) as [(HvS & HS0 & HS1) (HvC & HC0 & HC1)].
  { destruct PI_between; lra. }
  assert (E : flt lit_0 q = true ->
              coefficients_finite (MakeLowPass cutoffHz sampleRateHz q) = isfinite alpha).
  { intro Hq. rewrite MakeLowPass_binary32.
    exact (single_lowpass_finite sinf cosf cutoffHz sampleRateHz q HvC HC0 HC1 HS0 Hq). }
  split; [ exact E | ].
  intros Hvq Hq100.
  assert (Hq : flt lit_0 q = true).
  { destruct q as [s | [ | ] | | [ | ] m e]; try discriminate Hq100; reflexivity. }
  rewrite (E Hq).
  exact (alpha_finite (sinf omega) q HvS HS0 HS1 Hvq Hq100).
Qed.

Lemma test_inputs_in_range :
  valid binary32 lit_12 = true /\ isfinite lit_12 = true
  /\ valid binary32 lit_200 = true /\ isfinite lit_200 = true
  /\ (0 < to_R lit_12 < to_R lit_200 / 2)%R
  /\ valid binary32 lit_0_707 = true /\ fle lit_0x1p_100 lit_0_707 = true.
Proof.
  repeat split; try (vm_compute; reflexivity).
  - destruct literal_values as (_ & _ & _ & _ & -> & _). apply to_R_finite_pos.
  - destruct literal_values as (_ & _ & _ & _ & -> & -> & _).
    rewrite !to_R_finite.
    change (IZR (12582912 * 2 ^ Z.max (-20) 0) / IZR (2 ^ Z.max (- -20) 0))%R
      with (12582912 / 1048576)%R.
    change (IZR (13107200 * 2 ^ Z.max (-16) 0) / IZR (2 ^ Z.max (- -16) 0))%R
      with (13107200 / 65536)%R.
    lra.
Qed.

(** C3, amended.  For a well-formed finite cutoff strictly between zero
    and half the well-formed finite sample rate, the angle that line 33
    computes, [2.0f * (float)M_PI * (cutoffHz / sampleRateHz)], is a
    well-formed finite number between zero and [13176794 * 2^-22], the
    number of binary32 just below pi (and [(float)M_PI] is just above).
    With a libm whose [sinf] returns well-formed values in [[0, 1]] and
    whose [cosf] returns well-formed values in [[-1, 1]] on the arguments
    in [[0, pi)], the five coefficients are then finite exactly when
    [alpha = sinOmega / (2 q)] is, for every positive [q], and they are
    finite for every well-formed [q] that is at least [2^-100].  In
    particular [MakeLowPass(12.0f, 200.0f, 0.707f)] has five finite
    coefficients, and [TestCoefficientsFinite] passes, with such a libm,
    and with a libm that is accurate to [2^-23] at the angle of the
    tests. *)
Theorem MakeLowPass_finite (L : Libm float) :
  (forall cutoffHz sampleRateHz q : float,
     let omega := (lit_2 * pi * (cutoffHz / sampleRateHz))%S in
     let alpha := (sinf omega / (lit_2 * q))%S in
     valid binary32 cutoffHz = true -> isfinite cutoffHz = true ->
     valid binary32 sampleRateHz = true -> isfinite sampleRateHz = true ->
     (0 < to_R cutoffHz < to_R sampleRateHz / 2)%R ->
     (valid binary32 omega = true /\ isfinite omega = true
      /\ (0 <= to_R omega <= to_R lit_below_pi)%R
      /\ (to_R lit_below_pi < PI < to_R (pi : float))%R)
     /\ (libm_in_range L ->
         (flt lit_0 q = true ->
          coefficients_finite (MakeLowPass cutoffHz sampleRateHz q) = isfinite alpha)
         /\ (valid binary32 q = true -> fle lit_0x1p_100 q = true ->
             coefficients_finite (MakeLowPass cutoffHz sampleRateHz q) = true)))
  /\ (libm_in_range L -> TestCoefficientsFinite = true)
  /\ (libm_accurate L test_omega -> TestCoefficientsFinite = true).
Proof.
  assert (Hlo : to_R lit_below_pi = (13176794 / 4194304)%R).
  { unfold lit_below_pi. rewrite to_R_finite. reflexivity. }
  assert (Hhi : to_R (pi : float) = (13176795 / 4194304)%R).
  { rewrite float_pi_value, to_R_finite. reflexivity. }
  split; [ | split ].
  - intros c r q omega alpha Hvc Hfc Hvr Hfr Hrange.
    split.
    + rewrite Hlo, Hhi.
      destruct (angle_in_range c r Hvc Hfc Hvr Hfr Hrange) as (Hvo & Hfo & Ho).
      repeat split; try assumption; try apply Ho; apply PI_between.
    + intro HL. exact (in_range_design L c r q HL Hvc Hfc Hvr Hfr Hrange).
  - intro HL.
    destruct test_inputs_in_range as (Hvc & Hfc & Hvr & Hfr & Hrange & Hvq & Hq).
    exact (proj2 (in_range_design L lit_12 lit_200 lit_0_707 HL Hvc Hfc Hvr Hfr Hrange)
             Hvq Hq).
  - intro HL.
    exact (test_filters_all 4 coefficients_finite L finite_check_all (accurate_is_close L HL)).
Qed.

Lemma MakeLowPass_finite_witness :
  (valid binary32 lit_12 = true /\ isfinite lit_12 = true
   /\ valid binary32 lit_200 = true /\ isfinite lit_200 = true
   /\ (0 < to_R lit_12 < to_R lit_200 / 2)%R
   /\ valid binary32 lit_0_707 = true /\ fle lit_0x1p_100 lit_0_707 = true)
  /\ libm_in_range clamped_Libm
  /\ libm_accurate clamped_Libm test_omega
  /\ (0 <= to_R test_omega <= to_R lit_below_pi)%R
  /\ coefficients_finite
       (MakeLowPass (LF := clamped_Libm) lit_12 lit_200 lit_0_707) = true
  /\ TestCoefficientsFinite (LF := clamped_Libm) = true.
Proof.
  pose proof test_inputs_in_range as Hin.
  destruct Hin as (Hvc & Hfc & Hvr & Hfr & Hrange & Hvq & Hq).
  pose proof (proj1 (MakeLowPass_finite clamped_Libm) lit_12 lit_200 lit_0_707
                Hvc Hfc Hvr Hfr Hrange) as [(_ & _ & Ho & _) Hfin].
  split; [ repeat split; try assumption; apply Hrange | ].
  split; [ exact clamped_in_range | ].
  split; [ exact clamped_is_accurate | ].
  split; [ exact Ho | ].
  split.
  - exact (proj2 (Hfin clamped_in_range) Hvq Hq).
  - exact (proj1 (proj2 (MakeLowPass_finite clamped_Libm)) clamped_in_range).
Defined.

(** ** The default filter *)

(** C9, as stated, fails at a finite input: on the default filter
    [Update] of [-0.0f] returns [+0.0f], which compares equal to the
    sample but is another value (the sign bit differs, and [1.0f / x]
    tells the two apart), and it leaves [-0.0f], not [+0.0f], in [z2]. *)
Lemma default_Update_of_negative_zero :
  (valid binary32 nzero = true /\ isfinite nzero = true)
  /\ Update (default : BiquadFilter float) nzero
     = (lit_0, {| b0 := lit_1; b1 := lit_0; b2 := lit_0; a1 := lit_0; a2 := lit_0;
                  z1 := lit_0; z2 := nzero |})
  /\ fst (Update (default : BiquadFilter float) nzero) <> nzero
  /\ z2 (snd (Update (default : BiquadFilter float) nzero)) <> lit_0
  /\ (lit_1 / nzero)%S = S754_infinity true
  /\ (lit_1 / fst (Update (default : BiquadFilter float) nzero))%S = pinf.
Proof. repeat split; try (vm_compute; reflexivity); vm_compute; discriminate. Qed.

(** Outside the finite samples of the specification the state is lost:
    on the default filter [Update] of positive infinity returns it and
    leaves a NaN in [z1] and in [z2]. *)
Lemma default_Update_of_infinity :
  Update (default : BiquadFilter float) pinf
  = (pinf, {| b0 := lit_1; b1 := lit_0; b2 := lit_0; a1 := lit_0; a2 := lit_0;
              z1 := S754_nan; z2 := S754_nan |}).
Proof. vm_compute. reflexivity. Qed.

(** [x * 1.0f] is [x], for a well-formed finite [x]. *)
Lemma mul_one (s : bool) (m : positive) (e : Z) :
  valid binary32 (S754_finite s m e) = true ->
  SFmul 24 128 (S754_finite s m e) f32_1 = S754_finite s m e.
Proof.
  intro Hv.
  destruct (valid_digits s m e Hv) as (Hd & He & Hn).
  assert (Hc : fexp 24 128 (Zdigits2 (Zpos m) + e) = e).
  { unfold valid, valid_binary, bounded, canonical_mantissa in Hv.
    apply andb_true_iff in Hv. destruct Hv as [Hc _].
    apply Z.eqb_eq in Hc. exact Hc. }
  cbn [SFmul]. rewrite xorb_false_r.
  change (Z.pos (m * 8388608)) with (Zpos m * 2 ^ 23).
  destruct (binary_round_aux_steps 24 128 s (Zpos m * 2 ^ 23) (e + -23) loc_Exact ltac:(lia))
    as (m2 & -> & Hm2 & Hdown).
  rewrite Zdigits2_mul_pow2 in * by lia.
  replace (Zdigits2 (Z.pos m) + 23 + (e + -23)) with (Zdigits2 (Zpos m) + e) in * by lia.
  rewrite Hc in *.
  replace (Z.max (e + -23) e) with e in * by lia.
  replace (e - (e + -23)) with 23 in * by lia.
  rewrite Z.div_mul in * by lia.
  rewrite (Hdown eq_refl ltac:(lia)).
  2:{ replace (Zpos m * 2 ^ 23) with (0 + Zpos m * 2 ^ 23) by lia.
      apply small_bit; lia. }
  rewrite Hc, Z.max_id, Z.sub_diag, Z.pow_0_r, Z.div_1_r.
  cbn [of_mantissa].
  replace (e <=? 128 - 24) with true by (symmetry; apply Z.leb_le; lia).
  reflexivity.
Qed.

Lemma default_Update_finite (x : float) :
  valid binary32 x = true -> isfinite x = true ->
  Update (default : BiquadFilter float) x
  = (match x with S754_zero true => S754_zero false | _ => x end,
     {| b0 := lit_1; b1 := lit_0; b2 := lit_0; a1 := lit_0; a2 := lit_0;
        z1 := S754_zero false;
        z2 := match x with S754_zero true => S754_zero true | _ => S754_zero false end |}).
Proof.
  intros Hv Hf.
  rewrite Update_unfold.
  change (@mul float float_Arith) with (SFmul 24 128).
  change (@add float float_Arith) with (SFadd 24 128).
  change (@sub float float_Arith) with (SFsub 24 128).
  cbn [default b0 b1 b2 a1 a2 z1 z2].
  change (@lit_1 float float_Arith) with f32_1.
  change (@lit_0 float float_Arith) with (S754_zero false).
  destruct x as [[ | ] | | | s m e]; try discriminate Hf; try reflexivity.
  rewrite (mul_one s m e Hv).
  destruct s; reflexivity.
Qed.

Lemma feq_refl (x : float) : isfinite x = true -> feq x x = true.
Proof.
  destruct x as [s | s | | s m e]; try discriminate; intros _; [ reflexivity | ].
  unfold feq, SFeqb, SFcompare.
  rewrite Z.compare_refl, Pos.compare_cont_refl.
  destruct s; reflexivity.
Qed.

(** C9, amended.  The default filter has [b0 = 1.0f] and zeros elsewhere.
    For every well-formed finite sample [x] that is not [-0.0f], its
    first [Update] returns [x] itself and leaves the filter as it was,
    with [z1 = +0.0f] and [z2 = +0.0f].  For [x = -0.0f] it returns
    [+0.0f] and leaves [z1 = +0.0f] and [z2 = -0.0f].  In both cases the
    returned value compares equal to [x] and [z2] compares equal to
    zero. *)
Theorem default_filter_passes_finite_input (x : float) :
  valid binary32 x = true -> isfinite x = true ->
  (default : BiquadFilter float)
  = {| b0 := f32_1; b1 := S754_zero false; b2 := S754_zero false;
       a1 := S754_zero false; a2 := S754_zero false;
       z1 := S754_zero false; z2 := S754_zero false |}
  /\ (x <> nzero -> Update default x = (x, default))
  /\ (x = nzero ->
      Update default x
      = (S754_zero false,
         {| b0 := f32_1; b1 := S754_zero false; b2 := S754_zero false;
            a1 := S754_zero false; a2 := S754_zero false;
            z1 := S754_zero false; z2 := S754_zero true |}))
  /\ feq (fst (Update default x)) x = true
  /\ z1 (snd (Update default x)) = lit_0
  /\ feq (z2 (snd (Update default x))) lit_0 = true.
Proof.
  intros Hv Hf.
  rewrite (default_Update_finite x Hv Hf); cbn [fst snd z1 z2].
  split; [ reflexivity | ].
  destruct x as [[ | ] | | | s m e]; try discriminate Hf;
    repeat split; try reflexivity;
    try (intro H; try discriminate H; exfalso; apply H; reflexivity).
  apply (feq_refl (S754_finite s m e)). reflexivity.
Qed.

Lemma default_filter_passes_0_707 :
  (valid binary32 lit_0_707 = true /\ isfinite lit_0_707 = true
   /\ lit_0_707 <> nzero)
  /\ Update (default : BiquadFilter float) lit_0_707 = (lit_0_707, default)
  /\ feq (fst (Update (default : BiquadFilter float) lit_0_707)) lit_0_707 = true.
Proof.
  assert (Hv : valid binary32 lit_0_707 = true) by (vm_compute; reflexivity).
  assert (Hf : isfinite lit_0_707 = true) by (vm_compute; reflexivity).
  assert (Hn : lit_0_707 <> nzero) by (vm_compute; discriminate).
  destruct (default_filter_passes_finite_input lit_0_707 Hv Hf)
    as (_ & Hr & _ & He & _).
  repeat split; auto.
Defined.

(** ** The step response and the zero input *)

Lemma step_check_all : forallb step_check (test_filters 4) = true.
Proof. vm_compute. reflexivity. Qed.

Lemma step_check_sound (f : BiquadFilter float) :
  step_check f = true ->
  isfinite (step_output f) = true
  /\ (9 # 10 < to_Q (step_output f))%Q /\ (to_Q (step_output f) < 11 # 10)%Q
  /\ flt lit_0_9 (step_output f) && flt (step_output f) lit_1_1 = true.
Proof.
  unfold step_check.
  generalize (step_output f); intros output H.
  repeat rewrite andb_true_iff in H.
  destruct H as [[[[Hf Hlo] Hhi] Hlo'] Hhi'].
  repeat split; auto using Qltb_lt.
  rewrite Hlo', Hhi'; reflexivity.
Qed.

(** C6.  With a libm that is accurate to [2^-23] at the angle of the
    tests, the 200th value that [Update(1.0f)] returns on
    [MakeLowPass(12.0f, 200.0f, 0.707f)] is a finite number strictly between
    0.9 and 1.1, and [TestStepResponse] passes. *)
Theorem step_response_settles (L : Libm float) :
  libm_accurate L test_omega ->
  let output := step_output (MakeLowPass lit_12 lit_200 lit_0_707) in
  isfinite output = true
  /\ (9 # 10 < to_Q output)%Q /\ (to_Q output < 11 # 10)%Q
  /\ TestStepResponse = true.
Proof.
  intros HL.
  exact (step_check_sound _
           (test_filters_all 4 step_check L step_check_all (accurate_is_close L HL))).
Qed.

Lemma step_response_settles_reference :
  libm_accurate (reference_Libm binary32) test_omega
  /\ let output := step_output (MakeLowPass (LF := reference_Libm binary32)
                                  lit_12 lit_200 lit_0_707) in
     isfinite output = true
     /\ (9 # 10 < to_Q output)%Q /\ (to_Q output < 11 # 10)%Q
     /\ TestStepResponse (LF := reference_Libm binary32) = true.
Proof.
  split.
  - apply reference_is_accurate.
  - apply (step_response_settles (reference_Libm binary32)), reference_is_accurate.
Defined.

(** C5, as stated, fails.  With the reference libm, the fiftieth value that
    [Update(0.0f)] returns after the two hundred [Update(1.0f)] of the step
    response is 11503512 * 2^-42, about 2.6e-6: its magnitude is not
    below [1e-6f]. *)
Lemma decay_after_step_is_above_1e_6 :
  decay_output (LF := reference_Libm binary32) = S754_finite false 11503512 (-42)
  /\ flt (fabs (decay_output (LF := reference_Libm binary32))) lit_1e_6 = false.
Proof. split; vm_compute; reflexivity. Qed.

Lemma zero_check_all : forallb zero_check (test_filters 4) = true.
Proof. vm_compute. reflexivity. Qed.

Lemma decay_check_all : forallb decay_check (test_filters 4) = true.
Proof. vm_compute. reflexivity. Qed.

Lemma zero_check_sound (f : BiquadFilter float) :
  zero_check f = true ->
  zero_output f = lit_0 /\ flt (fabs (zero_output f)) lit_1e_6 = true.
Proof.
  unfold zero_check.
  generalize (zero_output f); intros output H.
  destruct output as [ [ | ] | | | ]; try discriminate H.
  split; [ reflexivity | exact H ].
Qed.

Lemma decay_check_sound (f : BiquadFilter float) :
  decay_check f = true ->
  let output := zero_output (snd (drive 200 lit_1 lit_0 f)) in
  isfinite output = true
  /\ (2 # 1000000 < to_Q output)%Q /\ (to_Q output < 3 # 1000000)%Q
  /\ flt (fabs output) lit_1e_6 = false /\ flt (fabs output) lit_1e_5 = true.
Proof.
  unfold decay_check.
  generalize (zero_output (snd (drive 200 lit_1 lit_0 f))); intros output H.
  repeat rewrite andb_true_iff in H.
  destruct H as [[[[Hf Hlo] Hhi] Hlo'] Hhi'].
  apply negb_true_iff in Hlo'.
  repeat split; auto using Qltb_lt.
Qed.

Lemma decay_output_unfold (L : Libm float) :
  decay_output = zero_output (snd (drive 200 lit_1 lit_0 (MakeLowPass lit_12 lit_200 lit_0_707))).
Proof.
  unfold decay_output.
  destruct (drive 200 lit_1 lit_0 (MakeLowPass lit_12 lit_200 lit_0_707)); reflexivity.
Qed.

(** C5, amended.  With a libm that is accurate to [2^-23] at the angle of
    the tests: fifty [Update(0.0f)] on the filter as [MakeLowPass(12.0f, 200.0f, 0.707f)]
    builds it, which is what [TestZeroInput] does, end on the output [+0.0],
    of magnitude below [1e-6f]; after the two hundred [Update(1.0f)] of the
    step response the fiftieth output is between 2e-6 and 3e-6, below
    [1e-5f] and not below [1e-6f]. *)
Theorem zero_input_outputs (L : Libm float) :
  libm_accurate L test_omega ->
  (zero_output (MakeLowPass lit_12 lit_200 lit_0_707) = lit_0
   /\ TestZeroInput = true)
  /\ (isfinite decay_output = true
      /\ (2 # 1000000 < to_Q decay_output)%Q /\ (to_Q decay_output < 3 # 1000000)%Q
      /\ flt (fabs decay_output) lit_1e_6 = false
      /\ flt (fabs decay_output) lit_1e_5 = true).
Proof.
  intro HL; split.
  - exact (zero_check_sound _
             (test_filters_all 4 zero_check L zero_check_all (accurate_is_close L HL))).
  - rewrite decay_output_unfold.
    exact (decay_check_sound _
             (test_filters_all 4 decay_check L decay_check_all (accurate_is_close L HL))).
Qed.

Lemma zero_input_outputs_reference :
  libm_accurate (reference_Libm binary32) test_omega
  /\ (zero_output (MakeLowPass (LF := reference_Libm binary32) lit_12 lit_200 lit_0_707) = lit_0
      /\ TestZeroInput (LF := reference_Libm binary32) = true)
  /\ (isfinite (decay_output (LF := reference_Libm binary32)) = true
      /\ (2 # 1000000 < to_Q (decay_output (LF := reference_Libm binary32)))%Q
      /\ (to_Q (decay_output (LF := reference_Libm binary32)) < 3 # 1000000)%Q
      /\ flt (fabs (decay_output (LF := reference_Libm binary32))) lit_1e_6 = false
      /\ flt (fabs (decay_output (LF := reference_Libm binary32))) lit_1e_5 = true).
Proof.
  split.
  - apply reference_is_accurate.
  - apply (zero_input_outputs (reference_Libm binary32)), reference_is_accurate.
Defined.

(** * Sequences of calls *)

(** ** Invariants of the loops *)

Lemma updates_invariant {F : Type} {AF : Arith F}
  (I : BiquadFilter F -> Prop) (P : F -> Prop) (Q : F -> F -> Prop) :
  (forall f x, I f -> P x -> Q x (fst (Update f x)) /\ I (snd (Update f x))) ->
  forall xs f, I f -> Forall P xs ->
  Forall2 Q xs (fst (updates f xs)) /\ I (snd (updates f xs)).
Proof.
  intros Hstep xs; induction xs as [ | x xs IH]; intros f Hf Hxs.
  - cbn. split; [ constructor | exact Hf ].
  - inversion Hxs as [ | x' xs' Hx Hxs' ]; subst.
    destruct (Hstep f x Hf Hx) as [Hq Hi].
    cbn [updates]. destruct (Update f x) as [y f1]. cbn [fst snd] in Hq, Hi.
    destruct (IH f1 Hi Hxs') as [Hqs Hi2].
    destruct (updates f1 xs) as [ys f2]. cbn [fst snd] in *.
    split; [ constructor; assumption | assumption ].
Qed.

Lemma updates_cons {F : Type} {AF : Arith F} (f : BiquadFilter F) (x : F) (xs : list F) :
  updates f (x :: xs)
  = (fst (Update f x) :: fst (updates (snd (Update f x)) xs),
     snd (updates (snd (Update f x)) xs)).
Proof.
  cbn [updates]. destruct (Update f x) as [y f1]. cbn [fst snd].
  destruct (updates f1 xs); reflexivity.
Qed.

Lemma drive_S {F : Type} {AF : Arith F} (n : nat) (x output : F) (f : BiquadFilter F) :
  drive (S n) x output f = drive n x (fst (Update f x)) (snd (Update f x)).
Proof. cbn [drive]. destruct (Update f x); reflexivity. Qed.

Lemma drive_invariant {F : Type} {AF : Arith F}
  (I : BiquadFilter F -> Prop) (Q : F -> Prop) (x : F) :
  (forall f, I f -> Q (fst (Update f x)) /\ I (snd (Update f x))) ->
  forall n output f, I f -> Q output ->
  Q (fst (drive n x output f)) /\ I (snd (drive n x output f)).
Proof.
  intros Hstep n; induction n as [ | n IH]; intros output f Hf Ho.
  - cbn. split; assumption.
  - rewrite drive_S. destruct (Hstep f Hf) as [Hq Hi]. apply IH; assumption.
Qed.

Lemma Forall2_outputs {A B : Type} (Q : B -> Prop) (xs : list A) (ys : list B) :
  Forall2 (fun _ y => Q y) xs ys -> Forall Q ys.
Proof. induction 1; constructor; assumption. Qed.

(** ** The operations of binary32 on zeros and on NaN *)

Lemma mul_zero_l (x c : float) :
  iszero x = true -> isfinite c = true -> iszero (SFmul 24 128 x c) = true.
Proof. destruct x, c; try discriminate; reflexivity. Qed.

Lemma mul_zero_r (c x : float) :
  isfinite c = true -> iszero x = true -> iszero (SFmul 24 128 c x) = true.
Proof. destruct x, c; try discriminate; reflexivity. Qed.

Lemma add_zero (x y : float) :
  iszero x = true -> iszero y = true -> iszero (SFadd 24 128 x y) = true.
Proof. destruct x as [[ | ] | | | ], y as [[ | ] | | | ]; try discriminate; reflexivity. Qed.

Lemma sub_zero (x y : float) :
  iszero x = true -> iszero y = true -> iszero (SFsub 24 128 x y) = true.
Proof. destruct x as [[ | ] | | | ], y as [[ | ] | | | ]; try discriminate; reflexivity. Qed.

Lemma mul_zero_not_finite (x c : float) :
  iszero x = true -> isfinite c = false ->
  SFmul 24 128 x c = S754_nan /\ SFmul 24 128 c x = S754_nan.
Proof. destruct x, c; try discriminate; split; reflexivity. Qed.

Lemma mul_nan_r (x : float) : SFmul 24 128 x S754_nan = S754_nan.
Proof. destruct x; reflexivity. Qed.

Lemma add_nan_r (x : float) : SFadd 24 128 x S754_nan = S754_nan.
Proof. destruct x; reflexivity. Qed.

Lemma sub_nan_r (x : float) : SFsub 24 128 x S754_nan = S754_nan.
Proof. destruct x; reflexivity. Qed.

Lemma coefficients_finite_iff (f : BiquadFilter float) :
  coefficients_finite f = true <->
  isfinite (b0 f) = true /\ isfinite (b1 f) = true /\ isfinite (b2 f) = true
  /\ isfinite (a1 f) = true /\ isfinite (a2 f) = true.
Proof.
  unfold coefficients_finite. rewrite !andb_true_iff. tauto.
Qed.

Lemma Update_float (f : BiquadFilter float) (sample : float) :
  Update f sample =
    (SFadd 24 128 (SFmul 24 128 sample (b0 f)) (z1 f),
     {| b0 := b0 f; b1 := b1 f; b2 := b2 f; a1 := a1 f; a2 := a2 f;
        z1 := SFsub 24 128 (SFadd 24 128 (SFmul 24 128 sample (b1 f)) (z2 f))
                (SFmul 24 128 (a1 f) (SFadd 24 128 (SFmul 24 128 sample (b0 f)) (z1 f)));
        z2 := SFsub 24 128 (SFmul 24 128 sample (b2 f))
                (SFmul 24 128 (a2 f) (SFadd 24 128 (SFmul 24 128 sample (b0 f)) (z1 f))) |}).
Proof. exact (Update_unfold f sample). Qed.

(** ** A filter at rest *)

Lemma zero_step (f : BiquadFilter float) (x : float) :
  coefficients_finite f = true -> at_rest f = true -> iszero x = true ->
  iszero (fst (Update f x)) = true
  /\ at_rest (snd (Update f x)) = true
  /\ same_coefficients f (snd (Update f x)).
Proof.
  intros Hc Hr Hx.
  apply coefficients_finite_iff in Hc. destruct Hc as (H0 & H1 & H2 & H3 & H4).
  unfold at_rest in *. apply andb_true_iff in Hr. destruct Hr as [Hz1 Hz2].
  rewrite Update_float; cbn [fst snd z1 z2].
  assert (Hres : iszero (SFadd 24 128 (SFmul 24 128 x (b0 f)) (z1 f)) = true)
    by auto using add_zero, mul_zero_l.
  split; [ exact Hres | split ].
  - apply andb_true_intro; split.
    + apply sub_zero; [ apply add_zero; [ apply mul_zero_l | ] | apply mul_zero_r ];
        assumption.
    + apply sub_zero; [ apply mul_zero_l | apply mul_zero_r ]; assumption.
  - unfold same_coefficients; cbn; auto.
Qed.

Lemma same_coefficients_finite (f g : BiquadFilter float) :
  same_coefficients f g -> coefficients_finite g = coefficients_finite f.
Proof.
  intros (E0 & E1 & E2 & E3 & E4). unfold coefficients_finite.
  rewrite E0, E1, E2, E3, E4. reflexivity.
Qed.

Lemma same_coefficients_trans {F : Type} (f g h : BiquadFilter F) :
  same_coefficients f g -> same_coefficients g h -> same_coefficients f h.
Proof. unfold same_coefficients. intuition congruence. Qed.

Lemma rest_step (f g : BiquadFilter float) (x : float) :
  coefficients_finite g = true /\ at_rest g = true /\ same_coefficients f g ->
  iszero x = true ->
  iszero (fst (Update g x)) = true
  /\ (coefficients_finite (snd (Update g x)) = true
      /\ at_rest (snd (Update g x)) = true
      /\ same_coefficients f (snd (Update g x))).
Proof.
  intros (Hc & Hr & Hs) Hx.
  destruct (zero_step g x Hc Hr Hx) as (Hy & Hr' & Hs').
  split; [ exact Hy | ].
  split; [ rewrite (same_coefficients_finite g _ Hs'); exact Hc | ].
  split; [ exact Hr' | exact (same_coefficients_trans f g _ Hs Hs') ].
Qed.

(** X1.  A filter with finite coefficients whose two delays are zeros, of
    either sign, answers zero samples, of either sign, with zeros: every
    sample of the list gets an output that is a zero, and the object after
    the last call is again at rest with the coefficients it had. *)
Theorem silence_in_silence_out (f : BiquadFilter float) (xs : list float) :
  coefficients_finite f = true -> at_rest f = true ->
  Forall (fun x => iszero x = true) xs ->
  Forall2 (fun _ y => iszero y = true) xs (fst (updates f xs))
  /\ at_rest (snd (updates f xs)) = true
  /\ same_coefficients f (snd (updates f xs)).
Proof.
  intros Hc Hr Hxs.
  destruct (updates_invariant
              (fun g => coefficients_finite g = true /\ at_rest g = true
                        /\ same_coefficients f g)
              (fun x => iszero x = true) (fun _ y => iszero y = true)
              (rest_step f) xs f) as (Hys & _ & Hr' & Hs').
  - repeat split; auto.
  - exact Hxs.
  - split; [ exact Hys | split; [ exact Hr' | exact Hs' ] ].
Qed.

Lemma silence_in_silence_out_witness :
  let f := MakeLowPass (LF := reference_Libm binary32) lit_12 lit_200 lit_0_707 in
  let xs := [lit_0; nzero; lit_0] in
  (coefficients_finite f = true /\ at_rest f = true
   /\ Forall (fun x => iszero x = true) xs)
  /\ Forall2 (fun _ y => iszero y = true) xs (fst (updates f xs))
  /\ at_rest (snd (updates f xs)) = true
  /\ same_coefficients f (snd (updates f xs)).
Proof.
  intros f xs.
  assert (Hc : coefficients_finite f = true) by (vm_compute; reflexivity).
  assert (Hr : at_rest f = true) by (vm_compute; reflexivity).
  assert (Hxs : Forall (fun x => iszero x = true) xs)
    by (repeat constructor).
  split; [ repeat split; assumption | ].
  exact (silence_in_silence_out f xs Hc Hr Hxs).
Defined.

(** ** What [Reset] forgets *)




(** ** A NaN in the filter *)

Lemma nan_result_step (f : BiquadFilter float) (x : float) :
  fst (Update f x) = S754_nan ->
  z1 (snd (Update f x)) = S754_nan /\ z2 (snd (Update f x)) = S754_nan.
Proof.
  rewrite Update_float; cbn [fst snd z1 z2].
  intros ->. rewrite !mul_nan_r, !sub_nan_r. split; reflexivity.
Qed.

Lemma nan_z1_step (f : BiquadFilter float) (x : float) :
  z1 f = S754_nan -> fst (Update f x) = S754_nan.
Proof.
  rewrite Update_float; cbn [fst].
  intros ->. apply add_nan_r.
Qed.

Lemma nan_z2_step (f : BiquadFilter float) (x : float) :
  z2 f = S754_nan -> z1 (snd (Update f x)) = S754_nan.
Proof.
  rewrite Update_float; cbn [snd z1].
  intros ->. rewrite add_nan_r. reflexivity.
Qed.

Lemma nan_a2_step (f : BiquadFilter float) (x : float) :
  a2 f = S754_nan -> z2 (snd (Update f x)) = S754_nan /\ a2 (snd (Update f x)) = S754_nan.
Proof.
  rewrite Update_float; cbn [snd z2 a2].
  intros ->. split; [ apply sub_nan_r | reflexivity ].
Qed.

Lemma poisoned_step (f : BiquadFilter float) (x : float) :
  z1 f = S754_nan /\ z2 f = S754_nan -> True ->
  fst (Update f x) = S754_nan
  /\ (z1 (snd (Update f x)) = S754_nan /\ z2 (snd (Update f x)) = S754_nan).
Proof.
  intros [H1 _] _.
  pose proof (nan_z1_step f x H1) as Hr.
  split; [ exact Hr | exact (nan_result_step f x Hr) ].
Qed.

Lemma Forall_True {A : Type} (xs : list A) : Forall (fun _ => True) xs.
Proof. induction xs; constructor; auto. Qed.

(** X3.  A NaN does not leave the filter: once [Update] has returned a NaN
    (because the sample, [b0] or [z1] was one, or from an infinity), every
    later call returns a NaN, whatever the samples and the coefficients,
    and [z1] and [z2] hold NaN after each of them. *)
Theorem NaN_is_absorbing (f : BiquadFilter float) (x : float) (xs : list float) :
  fst (Update f x) = S754_nan ->
  let g := snd (Update f x) in
  Forall2 (fun _ y => y = S754_nan) xs (fst (updates g xs))
  /\ z1 (snd (updates g xs)) = S754_nan
  /\ z2 (snd (updates g xs)) = S754_nan.
Proof.
  intros Hr g.
  exact (updates_invariant
           (fun g => z1 g = S754_nan /\ z2 g = S754_nan)
           (fun _ => True) (fun _ y => y = S754_nan)
           poisoned_step xs g (nan_result_step f x Hr) (Forall_True xs)).
Qed.

Lemma NaN_is_absorbing_witness :
  let f := MakeLowPass (LF := reference_Libm binary32) lit_12 lit_200 lit_0_707 in
  let xs := [lit_1; lit_0; lit_200] in
  fst (Update f S754_nan) = S754_nan
  /\ Forall2 (fun _ y => y = S754_nan) xs (fst (updates (snd (Update f S754_nan)) xs))
  /\ z1 (snd (updates (snd (Update f S754_nan)) xs)) = S754_nan
  /\ z2 (snd (updates (snd (Update f S754_nan)) xs)) = S754_nan.
Proof.
  intros f xs.
  assert (Hr : fst (Update f S754_nan) = S754_nan) by (vm_compute; reflexivity).
  split; [ exact Hr | ].
  exact (NaN_is_absorbing f S754_nan xs Hr).
Defined.

(** ** The zero-input test and the finiteness test *)

Lemma drive_poisoned (n : nat) (x output : float) (f : BiquadFilter float) :
  z1 f = S754_nan ->
  fst (drive (S n) x output f) = S754_nan.
Proof.
  intro H1. rewrite drive_S.
  pose proof (nan_z1_step f x H1) as Hr.
  apply (drive_invariant (fun g => z1 g = S754_nan /\ z2 g = S754_nan)
           (fun y => y = S754_nan) x).
  - intros g Hg. exact (poisoned_step g x Hg I).
  - exact (nan_result_step f x Hr).
  - exact Hr.
Qed.

Lemma drive_doomed (n : nat) (x output : float) (f : BiquadFilter float) :
  z1 f = S754_nan \/ z2 f = S754_nan ->
  fst (drive (S (S n)) x output f) = S754_nan.
Proof.
  intro H. rewrite drive_S. apply drive_poisoned.
  destruct H as [H1 | H2].
  - apply nan_result_step, nan_z1_step, H1.
  - apply nan_z2_step, H2.
Qed.

Lemma not_finite_step (f : BiquadFilter float) (x : float) :
  coefficients_finite f = false -> at_rest f = true -> iszero x = true ->
  z1 (snd (Update f x)) = S754_nan \/ z2 (snd (Update f x)) = S754_nan.
Proof.
  intros Hc Hr Hx.
  unfold at_rest in Hr. apply andb_true_iff in Hr. destruct Hr as [Hz1 Hz2].
  destruct (isfinite (b0 f)) eqn:H0.
  2:{ left. apply nan_result_step. rewrite Update_float; cbn [fst].
      rewrite (proj1 (mul_zero_not_finite x (b0 f) Hx H0)). reflexivity. }
  assert (Hres : iszero (fst (Update f x)) = true).
  { rewrite Update_float; cbn [fst]. auto using add_zero, mul_zero_l. }
  rewrite Update_float in *; cbn [fst snd z1 z2] in *.
  destruct (isfinite (b1 f)) eqn:H1.
  2:{ left. rewrite (proj1 (mul_zero_not_finite x (b1 f) Hx H1)). reflexivity. }
  destruct (isfinite (a1 f)) eqn:H3.
  2:{ left. rewrite (proj2 (mul_zero_not_finite _ (a1 f) Hres H3)). apply sub_nan_r. }
  destruct (isfinite (b2 f)) eqn:H2.
  2:{ right. rewrite (proj1 (mul_zero_not_finite x (b2 f) Hx H2)). reflexivity. }
  destruct (isfinite (a2 f)) eqn:H4.
  2:{ right. rewrite (proj2 (mul_zero_not_finite _ (a2 f) Hres H4)). apply sub_nan_r. }
  unfold coefficients_finite in Hc. rewrite H0, H1, H2, H3, H4 in Hc. discriminate Hc.
Qed.

Lemma zero_output_at_rest (f : BiquadFilter float) :
  at_rest f = true ->
  flt (fabs (zero_output f)) lit_1e_6 = coefficients_finite f.
Proof.
  intro Hr. unfold zero_output.
  assert (Hz : iszero (lit_0 : float) = true) by reflexivity.
  destruct (coefficients_finite f) eqn:Hc.
  - destruct (drive_invariant
                (fun g => coefficients_finite g = true /\ at_rest g = true
                          /\ same_coefficients f g)
                (fun y => iszero y = true) lit_0
                (fun g Hg => rest_step f g lit_0 Hg Hz)
                50 lit_0 f) as [Hy _].
    + unfold same_coefficients; auto 10.
    + reflexivity.
    + destruct (fst (drive 50 lit_0 lit_0 f)) as [ [ | ] | | | ];
        try discriminate Hy; vm_compute; reflexivity.
  - rewrite drive_S.
    rewrite (drive_doomed 47 lit_0 _ _ (not_finite_step f lit_0 Hc Hr Hz)).
    vm_compute; reflexivity.
Qed.

(** X4.  Whatever [sinf] and [cosf] return, [TestZeroInput] passes exactly
    when [TestCoefficientsFinite] does: the filter is built at rest, so
    that fifty zeros give a zero when the five coefficients are finite,
    and a NaN, from the third call on, when one of them is not. *)
Theorem TestZeroInput_is_TestCoefficientsFinite (L : Libm float) :
  TestZeroInput = TestCoefficientsFinite.
Proof.
  unfold TestZeroInput, TestCoefficientsFinite.
  apply zero_output_at_rest.
  rewrite MakeLowPass_binary32. reflexivity.
Qed.

(** ** The default filter on a sequence *)

Lemma identity_step (g : BiquadFilter float) (x : float) :
  (same_coefficients (default : BiquadFilter float) g /\ at_rest g = true) ->
  (valid binary32 x = true /\ isfinite x = true) ->
  (feq (fst (Update g x)) x = true /\ (iszero x = false -> fst (Update g x) = x))
  /\ (same_coefficients (default : BiquadFilter float) (snd (Update g x))
      /\ at_rest (snd (Update g x)) = true).
Proof.
  intros [(E0 & E1 & E2 & E3 & E4) Hr] [Hv Hf].
  unfold at_rest in *. apply andb_true_iff in Hr. destruct Hr as [Hz1 Hz2].
  unfold same_coefficients.
  rewrite Update_float; cbn [fst snd b0 b1 b2 a1 a2 z1 z2].
  rewrite E0, E1, E2, E3, E4.
  cbn [default b0 b1 b2 a1 a2].
  change (@lit_1 float float_Arith) with f32_1.
  change (@lit_0 float float_Arith) with (S754_zero false).
  destruct (z1 g) as [s1 | | | ]; try discriminate Hz1.
  destruct (z2 g) as [s2 | | | ]; try discriminate Hz2.
  destruct x as [sx | | | sx mx ex]; try discriminate Hf.
  - destruct sx, s1, s2; repeat split; try reflexivity; discriminate.
  - rewrite (mul_one sx mx ex Hv).
    assert (Hx : feq (S754_finite sx mx ex) (S754_finite sx mx ex) = true)
      by (apply feq_refl; reflexivity).
    destruct sx, s1, s2; repeat split; try reflexivity; exact Hx.
Qed.

(** X5.  The default filter is the identity for as long as it is used: on
    any sequence of well-formed finite samples every output equals its
    sample (it is the sample itself when that is not a zero), and the
    two delays are zeros after the last call. *)
Theorem default_filter_is_the_identity (xs : list float) :
  Forall (fun x => valid binary32 x = true /\ isfinite x = true) xs ->
  Forall2 (fun x y => feq y x = true /\ (iszero x = false -> y = x))
    xs (fst (updates (default : BiquadFilter float) xs))
  /\ at_rest (snd (updates (default : BiquadFilter float) xs)) = true.
Proof.
  intro Hxs.
  destruct (updates_invariant
              (fun g => same_coefficients (default : BiquadFilter float) g
                        /\ at_rest g = true)
              (fun x => valid binary32 x = true /\ isfinite x = true)
              (fun x y => feq y x = true /\ (iszero x = false -> y = x))
              identity_step xs default) as (Hys & _ & Hr).
  - unfold same_coefficients. repeat split.
  - exact Hxs.
  - split; assumption.
Qed.

Lemma default_filter_is_the_identity_witness :
  let xs := [lit_0_707; nzero; lit_m1; lit_1e_40; lit_200] in
  Forall (fun x => valid binary32 x = true /\ isfinite x = true) xs
  /\ Forall2 (fun x y => feq y x = true /\ (iszero x = false -> y = x))
       xs (fst (updates (default : BiquadFilter float) xs))
  /\ at_rest (snd (updates (default : BiquadFilter float) xs)) = true.
Proof.
  intro xs.
  assert (Hxs : Forall (fun x => valid binary32 x = true /\ isfinite x = true) xs)
    by (repeat constructor; vm_compute; reflexivity).
  split; [ exact Hxs | ].
  exact (default_filter_is_the_identity xs Hxs).
Defined.

(** ** The designer at a zero resonance and at a zero sample rate *)

Lemma zero_resonance_a2 (sinf cosf : float -> float) (cutoffHz sampleRateHz q : float) :
  iszero q = true ->
  a2 (single_lowpass sinf cosf cutoffHz sampleRateHz q) = S754_nan.
Proof.
  intro Hq. unfold single_lowpass; cbn [a2].
  generalize (sinf (SFmul 24 128 (SFmul 24 128 f32_2 (convert binary32 M_PI))
                      (SFdiv 24 128 cutoffHz sampleRateHz))).
  intro s.
  destruct q as [sq | | | ]; try discriminate Hq.
  destruct s as [ss | ss | | ss ms es], sq; reflexivity.
Qed.

Lemma poisoned_after_two (f : BiquadFilter float) (xs : list float) :
  a2 f = S754_nan ->
  Forall (fun y => y = S754_nan) (skipn 2 (fst (updates f xs))).
Proof.
  intro Ha.
  destruct xs as [ | x1 [ | x2 xs] ]; [ constructor | constructor | ].
  rewrite !updates_cons. cbn [fst skipn].
  pose proof (nan_a2_step f x1 Ha) as [Hz2 _].
  pose proof (nan_z2_step _ x2 Hz2) as Hz1.
  apply (Forall2_outputs _ xs).
  apply (updates_invariant
           (fun g => z1 g = S754_nan)
           (fun _ => True) (fun _ y => y = S754_nan)
           (fun g x Hg _ =>
              conj (nan_z1_step g x Hg)
                   (proj1 (nan_result_step g x (nan_z1_step g x Hg))))
           xs _ Hz1 (Forall_True xs)).
Qed.

(** X6.  [MakeLowPass] does not guard the division by [2 q]: at a
    resonance that is a zero, of either sign, [alpha] is an infinity or a
    NaN, and [a2] is a NaN, whatever the cutoff, the sample rate and the
    values of [sinf] and [cosf].  The check of the coefficients fails on
    such a filter, and from its third [Update] on every output is a NaN,
    whatever the samples. *)
Theorem zero_resonance_design
  (L : Libm float) (cutoffHz sampleRateHz q : float) (xs : list float) :
  iszero q = true ->
  let f := MakeLowPass cutoffHz sampleRateHz q in
  a2 f = S754_nan
  /\ coefficients_finite f = false
  /\ Forall (fun y => y = S754_nan) (skipn 2 (fst (updates f xs))).
Proof.
  intros Hq f.
  assert (Ha : a2 f = S754_nan).
  { unfold f. rewrite MakeLowPass_binary32. apply zero_resonance_a2, Hq. }
  split; [ exact Ha | split ].
  - unfold coefficients_finite. rewrite Ha. apply andb_false_r.
  - apply poisoned_after_two, Ha.
Qed.

Lemma zero_resonance_design_witness :
  let f := MakeLowPass (LF := reference_Libm binary32) lit_12 lit_200 lit_0 in
  let xs := [lit_1; lit_1; lit_1; lit_0] in
  iszero (lit_0 : float) = true
  /\ a2 f = S754_nan
  /\ coefficients_finite f = false
  /\ Forall (fun y => y = S754_nan) (skipn 2 (fst (updates f xs))).
Proof.
  intros f xs.
  assert (Hq : iszero (lit_0 : float) = true) by reflexivity.
  split; [ exact Hq | ].
  exact (zero_resonance_design (reference_Libm binary32) lit_12 lit_200 lit_0 xs Hq).
Defined.




(** * The test program *)

Section Program.

Import String.
Local Open Scope string_scope.

Lemma TestStepResponse_checks (L : Libm float) (p : Harness.process) :
  let filter := MakeLowPass lit_12 lit_200 lit_0_707 in
  Harness.TestStepResponse p
  = Harness.Check (flt (step_output filter) lit_1_1) "step response settles below 1.1"
      (Harness.Check (flt lit_0_9 (step_output filter)) "step response settles above 0.9" p).
Proof.
  unfold Harness.TestStepResponse, step_output.
  destruct (drive 200 lit_1 lit_0 (MakeLowPass lit_12 lit_200 lit_0_707)); reflexivity.
Qed.

Lemma TestZeroInput_checks (L : Libm float) (p : Harness.process) :
  let filter := MakeLowPass lit_12 lit_200 lit_0_707 in
  Harness.TestZeroInput p
  = Harness.Check (flt (fabs (zero_output filter)) lit_1e_6) "zero input stays near zero" p.
Proof.
  unfold Harness.TestZeroInput, zero_output.
  destruct (drive 50 lit_0 lit_0 (MakeLowPass lit_12 lit_200 lit_0_707)); reflexivity.
Qed.

Lemma checks_run (c1 c2 c3 c4 c5 c6 c7 c8 : bool) :
  let checks :=
    [ (c1, "b0 finite"); (c2, "b1 finite"); (c3, "b2 finite"); (c4, "a1 finite");
      (c5, "a2 finite"); (c6, "step response settles above 0.9");
      (c7, "step response settles below 1.1"); (c8, "zero input stays near zero") ] in
  let failed := List.filter (fun c => negb (fst c)) checks in
  let p :=
    Harness.Check c8 "zero input stays near zero"
      (Harness.Check c7 "step response settles below 1.1"
        (Harness.Check c6 "step response settles above 0.9"
          (Harness.Check c5 "a2 finite"
            (Harness.Check c4 "a1 finite"
              (Harness.Check c3 "b2 finite"
                (Harness.Check c2 "b1 finite"
                  (Harness.Check c1 "b0 finite" Harness.start))))))) in
  Harness.stdout p = ""
  /\ Harness.failures p = Z.of_nat (List.length failed)
  /\ Harness.stderr p
     = concat "" (map (fun c => "FAIL: " ++ snd c ++ Harness.newline) failed)
  /\ (Harness.failures p = 0 ->
      (c1 && c2 && c3 && c4 && c5 && (c6 && c7) && c8 = true) /\ Harness.stderr p = "")
  /\ (c1 && c2 && c3 && c4 && c5 && (c6 && c7) && c8 = true -> Harness.failures p = 0).
Proof.
  destruct c1, c2, c3, c4, c5, c6, c7, c8;
    (split; [ reflexivity | split; [ reflexivity | split; [ reflexivity | split; intro H ] ] ]);
    try discriminate H; try (split; reflexivity); reflexivity.
Qed.


Lemma main_checks (L : Libm float) :
  let filter := MakeLowPass lit_12 lit_200 lit_0_707 in
  let p :=
    Harness.Check (flt (fabs (zero_output filter)) lit_1e_6) "zero input stays near zero"
      (Harness.Check (flt (step_output filter) lit_1_1) "step response settles below 1.1"
        (Harness.Check (flt lit_0_9 (step_output filter)) "step response settles above 0.9"
          (Harness.Check (isfinite (a2 filter)) "a2 finite"
            (Harness.Check (isfinite (a1 filter)) "a1 finite"
              (Harness.Check (isfinite (b2 filter)) "b2 finite"
                (Harness.Check (isfinite (b1 filter)) "b1 finite"
                  (Harness.Check (isfinite (b0 filter)) "b0 finite" Harness.start))))))) in
  Harness.main Harness.start
  = if (0 <? Harness.failures p)%Z then
      (1, {| Harness.failures := Harness.failures p;
             Harness.stderr :=
               Harness.stderr p ++ Harness.format_d (Harness.failures p)
                 ++ " test(s) failed." ++ Harness.newline;
             Harness.stdout := Harness.stdout p |})
    else
      (0, {| Harness.failures := Harness.failures p;
             Harness.stderr := Harness.stderr p;
             Harness.stdout := Harness.stdout p ++ "All tests passed." ++ Harness.newline |}).
Proof.
  intros filter p. unfold Harness.main.
  rewrite TestZeroInput_checks, TestStepResponse_checks.
  reflexivity.
Qed.

(** X8.  Whatever [sinf] and [cosf] return, [main] returns 0 exactly when
    the three tests pass, and 1 otherwise.  The counter [failures] ends
    on the number of the eight checks that fail.  When [main] returns 0 it
    has written the line [All tests passed.] to the standard output and
    nothing to the standard error; when it returns 1 it has written
    nothing to the standard output, and the standard error holds one line
    [FAIL: ] with its message for each failed check, in the order of the
    program, and then the count, from 1 to 8, with [ test(s) failed.]. *)
Theorem main_exit_status (L : Libm float) :
  let filter := MakeLowPass lit_12 lit_200 lit_0_707 in
  let checks :=
    [ (isfinite (b0 filter), "b0 finite"); (isfinite (b1 filter), "b1 finite");
      (isfinite (b2 filter), "b2 finite"); (isfinite (a1 filter), "a1 finite");
      (isfinite (a2 filter), "a2 finite");
      (flt lit_0_9 (step_output filter), "step response settles above 0.9");
      (flt (step_output filter) lit_1_1, "step response settles below 1.1");
      (flt (fabs (zero_output filter)) lit_1e_6, "zero input stays near zero") ] in
  let failed := List.filter (fun c => negb (fst c)) checks in
  let status := fst (Harness.main Harness.start) in
  let p := snd (Harness.main Harness.start) in
  (status = 0 <-> TestCoefficientsFinite && TestStepResponse && TestZeroInput = true)
  /\ Harness.failures p = Z.of_nat (List.length failed)
  /\ (status = 0 ->
      p = {| Harness.failures := 0; Harness.stderr := "";
             Harness.stdout := "All tests passed." ++ Harness.newline |})
  /\ (status <> 0 ->
      status = 1 /\ (1 <= Harness.failures p <= 8)%Z /\ Harness.stdout p = ""
      /\ Harness.stderr p
         = concat "" (map (fun c => "FAIL: " ++ snd c ++ Harness.newline) failed)
             ++ Harness.format_d (Harness.failures p)
             ++ " test(s) failed." ++ Harness.newline).
Proof.
  intros filter checks failed status p.
  unfold status, p, failed, checks. rewrite main_checks. fold filter.
  unfold TestCoefficientsFinite, TestStepResponse, TestZeroInput, coefficients_finite.
  fold filter.
  generalize (isfinite (b0 filter)) (isfinite (b1 filter)) (isfinite (b2 filter))
    (isfinite (a1 filter)) (isfinite (a2 filter))
    (flt lit_0_9 (step_output filter)) (flt (step_output filter) lit_1_1)
    (flt (fabs (zero_output filter)) lit_1e_6).
  intros c1 c2 c3 c4 c5 c6 c7 c8.
  destruct (checks_run c1 c2 c3 c4 c5 c6 c7 c8) as (Hout & Hn & Herr & Hzero & Hall).
  cbv zeta in Hout, Hn, Herr, Hzero, Hall.
  set (cs := [ (c1, _); (c2, _); (c3, _); (c4, _); (c5, _); (c6, _); (c7, _); (c8, _) ]) in *.
  set (q := Harness.Check c8 _ _) in *.
  assert (Hle : (List.length (List.filter (fun c => negb (fst c)) cs) <= 8)%nat).
  { apply (filter_length_le (fun c => negb (fst c)) cs). }
  destruct (0 <? Harness.failures q)%Z eqn:Hpos; cbn [fst snd].
  - apply Z.ltb_lt in Hpos.
    split; [ split; [ discriminate | intro H; apply Hall in H; lia ] | ].
    split; [ exact Hn | ].
    split; [ discriminate | ].
    intros _. cbn [Harness.failures Harness.stdout Harness.stderr].
    split; [ reflexivity | ].
    split; [ lia | ].
    split; [ exact Hout | ].
    rewrite Herr. reflexivity.
  - apply Z.ltb_ge in Hpos.
    assert (H0 : Harness.failures q = 0) by lia.
    destruct (Hzero H0) as [Hc Herr0].
    split; [ split; [ intros _; exact Hc | reflexivity ] | ].
    split; [ exact Hn | ].
    split; [ | intro H; exfalso; apply H; reflexivity ].
    intros _. rewrite H0, Herr0, Hout. reflexivity.
Qed.

(** X9.  With a libm that is accurate to [2^-23] at the angle of the
    tests the program passes: [main] returns 0 with [failures] at 0, the
    line [All tests passed.] on the standard output and nothing on the
    standard error. *)
Theorem main_passes (L : Libm float) :
  libm_accurate L test_omega ->
  Harness.main Harness.start
  = (0, {| Harness.failures := 0; Harness.stderr := "";
           Harness.stdout := "All tests passed." ++ Harness.newline |}).
Proof.
  intro HL.
  pose proof (accurate_is_close L HL) as Hclose.
  pose proof (test_filters_all 4 coefficients_finite L finite_check_all Hclose) as Hc.
  pose proof (proj2 (proj2 (proj2 (step_check_sound _
                (test_filters_all 4 step_check L step_check_all Hclose))))) as Hs.
  pose proof (proj2 (zero_check_sound _
                (test_filters_all 4 zero_check L zero_check_all Hclose))) as Hz.
  apply coefficients_finite_iff in Hc. destruct Hc as (H0 & H1 & H2 & H3 & H4).
  apply andb_true_iff in Hs. destruct Hs as [Hlo Hhi].
  rewrite main_checks. cbv zeta.
  rewrite H0, H1, H2, H3, H4, Hlo, Hhi, Hz.
  reflexivity.
Qed.

Lemma main_passes_reference :
  libm_accurate (reference_Libm binary32) test_omega
  /\ Harness.main (LF := reference_Libm binary32) Harness.start
     = (0, {| Harness.failures := 0; Harness.stderr := "";
              Harness.stdout := "All tests passed." ++ Harness.newline |}).
Proof.
  split.
  - apply reference_is_accurate.
  - apply (main_passes (reference_Libm binary32)), reference_is_accurate.
Defined.

End Program.

(** * The filter in exact arithmetic *)

Local Open Scope R_scope.



Local Close Scope R_scope.
